(** * Doctor App backend: the request handlers of [main.py] and the
      schemas of [schemas.py], embedded and checked against their
      specification. *)

From Stdlib Require Import NArith ZArith String Ascii DecimalString.
From stdpp Require Import base option list gmap strings fin_maps.

Local Open Scope N_scope.

(** ** Text

    A Python [str] is a sequence of Unicode code points: [list N].  Field
    names and other dictionary keys stay Rocq strings. *)

Abbreviation str := (list N).

(** An ASCII literal as a [str]. *)
Fixpoint u (s : string) : str :=
  match s with
  | EmptyString => []
  | String a s' => N_of_ascii a :: u s'
  end.

Arguments u : simpl never.

(** U+000A, the newline. *)
Definition nl : str := [10].

(** [Py_UNICODE_ISSPACE]: what [str.strip()] removes and what [\s] matches
    in a [str] pattern. *)
Definition isspace (c : N) : bool :=
  ((9 <=? c) && (c <=? 13)) || ((28 <=? c) && (c <=? 32))
  || (c =? 133) || (c =? 160) || (c =? 5760)
  || ((8192 <=? c) && (c <=? 8202))
  || (c =? 8232) || (c =? 8233) || (c =? 8239) || (c =? 8287) || (c =? 12288).

Fixpoint lstrip (s : str) : str :=
  match s with
  | [] => []
  | c :: s' => if isspace c then lstrip s' else s
  end.

Definition rstrip (s : str) : str := reverse (lstrip (reverse s)).

(** [s.strip()] *)
Definition strip (s : str) : str := rstrip (lstrip s).

(** ** Errors *)

Inductive exn :=
| HTTPException (status_code : Z) (detail : string)
| ValidationError
| TypeError.

Inductive result (A : Type) :=
| Ok (a : A)
| Raise (e : exn).
Arguments Ok {A} a.
Arguments Raise {A} e.

(** ** [generate_emr]

    Every pattern is a label, then one of colon and dash, then [\s*], then
    one group of any characters to the end, searched under
    [re.IGNORECASE | re.DOTALL]. *)

Definition is_ascii_lower (p : N) : bool := (97 <=? p) && (p <=? 122).

(** A literal of the pattern under [re.IGNORECASE], for the lower-case
    ASCII letters and the space the labels are made of.  The engine compares
    the simple lower-case mapping of the text character with the literal:
    that is the letter, its capital, U+0130 for [i] and U+212A for [k]; for
    [i] and [s] it also accepts the equivalent U+0131 and U+017F. *)
Definition literal_ignorecase (p c : N) : bool :=
  (c =? p)
  || (is_ascii_lower p && (c =? p - 32))
  || ((p =? 105) && ((c =? 304) || (c =? 305)))
  || ((p =? 107) && (c =? 8490))
  || ((p =? 115) && (c =? 383)).

(** The label at the head of [s]; what follows it. *)
Fixpoint match_label (label s : str) : option str :=
  match label with
  | [] => Some s
  | p :: label' =>
      match s with
      | [] => None
      | c :: s' => if literal_ignorecase p c then match_label label' s' else None
      end
  end.

(** The class of colon and dash. *)
Definition is_sep (c : N) : bool := (c =? 58) || (c =? 45).

(** The whole pattern tried at the head of [s]; group 1 when it matches.
    [\s*] takes every leading whitespace character, the group with
    [re.DOTALL] takes all that is left, so the first attempt succeeds and nothing is
    given back. *)
Definition match_at (label s : str) : option str :=
  match match_label label s with
  | Some (c :: rest) => if is_sep c then Some (lstrip rest) else None
  | _ => None
  end.

(** [re.search]: the leftmost position where the pattern matches. *)
Fixpoint re_search (label s : str) : option str :=
  match match_at label s with
  | Some g => Some g
  | None =>
      match s with
      | [] => None
      | _ :: s' => re_search label s'
      end
  end.

(** The local [find] of [generate_emr], for the pattern of [label]. *)
Definition find (text : str) (label : string) : option str :=
  match re_search (u label) text with
  | Some g => Some (strip g)
  | None => None
  end.

(** Truth value of an [Optional[str]]. *)
Definition truthy_opt (v : option str) : bool :=
  match v with
  | Some (_ :: _) => true
  | _ => false
  end.

(** [a or b] *)
Definition py_or (a b : option str) : option str :=
  if truthy_opt a then a else b.

Record ConversationInput := {
  transcript : str;
  style : option str
}.

(** The dictionary literal of [generate_emr], before the [None] values are
    cleaned away. *)
Definition emr_fields (text : str) : gmap string (option str) :=
  <["chief_complaint" := py_or (find text "chief complaint") (find text "cc")]>
  (<["history_of_present_illness" := find text "hpi"]>
  (<["review_of_systems" := find text "ros"]>
  (<["physical_exam" := find text "exam"]>
  (<["assessment" := find text "assessment"]>
  (<["plan" := find text "plan"]>
  (<["summary" := Some (take 500 text)]> ∅)))))).

(** [{k: v for k, v in emr.items() if v}] *)
Definition clean (emr : gmap string (option str)) : gmap string str :=
  omap (λ v, if truthy_opt v then v else None) emr.

Definition generate_emr (conv : ConversationInput) : result (gmap string str) :=
  let text := strip (transcript conv) in
  match text with
  | [] => Raise (HTTPException 400 "Transcript is empty")
  | _ => Ok (clean (emr_fields text))
  end.

Definition example_transcript : str :=
  u "Chief Complaint: cough" ++ nl ++ u "Plan: rest".


(** ** Values

    What a JSON body or a stored document holds under a key.  A list is a
    list of strings, the only kind the schemas declare ([facility_ids]); a
    [datetime] is held as its [isoformat()] text. *)

Inductive value :=
| VNone
| VBool (b : bool)
| VInt (z : Z)
| VStr (s : str)
| VList (l : list str)
| VObjectId (o : list N)
| VDatetime (iso : str).

Global Instance value_eq_dec : EqDecision value.
Proof. solve_decision. Defined.

(** Truth value of a Python object, [if x]. *)
Definition truthy (v : value) : bool :=
  match v with
  | VNone => false
  | VBool b => b
  | VInt z => negb (z =? 0)%Z
  | VStr s => match s with [] => false | _ :: _ => true end
  | VList l => match l with [] => false | _ :: _ => true end
  | VObjectId _ | VDatetime _ => true
  end.

Abbreviation document := (gmap string value).
Abbreviation database := (gmap string (list document)).

(** What the libraries around the handlers do.  A property that depends on
    how they do it says so in a hypothesis. *)
Class Platform := {
  (** [bson.ObjectId(id_str)]: the identifier, [None] where the constructor
      raises. *)
  ObjectId : str → option (list N);
  (** The built-in [str(v)]; a string is its own text. *)
  py_str : value → str;
  py_str_VStr : ∀ s, py_str (VStr s) = s;
  (** The case folding the store's regular-expression engine applies to
      both characters under option [i]. *)
  casefold : N → N;
  (** The store's regular-expression engine on a pattern with its options:
      the test it makes of a string, [None] where it refuses the pattern.  It
      is asked about the patterns that are not read below. *)
  regex_engine : str → str → option (str → bool);
  (** The default of the [limit] argument of [get_documents]. *)
  default_limit : option nat
}.

(** ** The store's filters *)

(** The patterns read here: ordinary characters and the dot. *)
Inductive atom :=
| Chr (c : N)
| Dot.

(** A filter on one field: equality with a value, or [$regex] with
    [$options]. *)
Inductive cond :=
| CEq (v : value)
| CRegex (pattern : str) (options : str).

Section Handlers.
Context `{Platform}.

(** The characters with a meaning of their own in a pattern:
    backslash, caret, dollar, dot, brackets, bar, parentheses, question mark,
    star, plus and braces. *)
Definition is_meta (c : N) : bool :=
  bool_decide (c ∈ [92; 94; 36; 46; 91; 93; 124; 40; 41; 63; 42; 43; 123; 125]).

(** A pattern made of ordinary characters and dots; [None] for every other
    pattern. *)
Definition regex_compile (pattern : str) : option (list atom) :=
  mapM (λ c, if c =? 46 then Some Dot else if is_meta c then None else Some (Chr c))
       pattern.

Definition atom_matches (caseless : bool) (a : atom) (c : N) : bool :=
  match a with
  | Chr p => if caseless then bool_decide (casefold p = casefold c) else bool_decide (p = c)
  | Dot => negb (c =? 10)
  end.

Fixpoint atoms_match (caseless : bool) (r : list atom) (s : str) : bool :=
  match r with
  | [] => true
  | a :: r' =>
      match s with
      | [] => false
      | c :: s' => atom_matches caseless a c && atoms_match caseless r' s'
      end
  end.

(** An unanchored match: at some position of [s]. *)
Fixpoint regex_search (caseless : bool) (r : list atom) (s : str) : bool :=
  atoms_match caseless r s
  || match s with
     | [] => false
     | _ :: s' => regex_search caseless r s'
     end.

(** [$regex] with [$options]: the test the pattern makes of a string,
    [None] where the store refuses the pattern.  A pattern of ordinary
    characters and dots, with no option but [i], is read here; every other one
    is the engine's. *)
Definition regex_test (pattern options : str) : option (str → bool) :=
  match (if forallb (N.eqb 105) options then regex_compile pattern else None) with
  | Some r => Some (regex_search (bool_decide (105 ∈ options)) r)
  | None => regex_engine pattern options
  end.

(** One condition against the field of a document ([None]: the document has
    no such field).  Equality also holds for a list that has the value among
    its elements, and for [null] against a missing field; a pattern is tried
    on a string and on every string of a list. *)
Definition cond_holds (field : option value) (c : cond) : bool :=
  match c with
  | CEq v =>
      match field with
      | None => bool_decide (v = VNone)
      | Some w =>
          bool_decide (w = v)
          || match w, v with
             | VList l, VStr s => bool_decide (s ∈ l)
             | _, _ => false
             end
      end
  | CRegex pattern options =>
      match regex_test pattern options with
      | Some test =>
          match field with
          | Some (VStr s) => test s
          | Some (VList l) => existsb test l
          | _ => false
          end
      | None => false
      end
  end.

(** Every condition of the filter holds: the conditions combine with AND. *)
Definition doc_matches (d : document) (q : gmap string cond) : bool :=
  bool_decide (map_Forall (λ k c, cond_holds (d !! k) c = true) q).

(** [collection.find_one(q)]; a collection lists its documents oldest
    first. *)
Definition find_one (coll : list document) (q : gmap string cond) : option document :=
  head (filter (λ d, doc_matches d q) coll).

(** [collection.update_one(q, {"$set": updates})]: the collection afterwards
    and [matched_count]. *)
Fixpoint update_one (coll : list document) (q : gmap string cond)
    (updates : gmap string value) : list document * nat :=
  match coll with
  | [] => ([], 0%nat)
  | d :: rest =>
      if doc_matches d q then ((updates ∪ d) :: rest, 1%nat)
      else let '(rest', n) := update_one rest q updates in (d :: rest', n)
  end.

(** Modelled from the spec: [get_documents] of [database.py], which is not
    among the sources.  The documents of the collection that match the filter,
    most recent first, capped at [limit] when there is one. *)
Definition get_documents (db : database) (collection_name : string)
    (filter_dict : gmap string cond) (limit : option nat) : list document :=
  let found := filter (λ d, doc_matches d filter_dict) (reverse (db !!! collection_name)) in
  match limit with
  | Some n => take n found
  | None => found
  end.

(** ** Helpers *)

Definition oid (id_str : str) : result (list N) :=
  match ObjectId id_str with
  | Some o => Ok o
  | None => Raise (HTTPException 400 "Invalid id format")
  end.

Definition serialize (doc : document) : document :=
  if decide (doc = ∅) then doc
  else
    let d := match doc !! "_id" with
             | Some v => <["id" := VStr (py_str v)]> (delete "_id" doc)
             | None => doc
             end in
    (λ v, match v with VDatetime iso => VStr iso | _ => v end) <$> d.

(** ** Lists and details *)

(** [{key: param}] when the parameter is truthy, nothing otherwise. *)
Definition set_if (key : string) (param : option str) (q : gmap string cond)
    : gmap string cond :=
  if truthy_opt param then <[key := CEq (VStr (default [] param))]> q else q.

Definition list_doctors_query (tenant_id : option str) : gmap string cond :=
  set_if "tenant_id" tenant_id ∅.

Definition list_doctors (db : database) (tenant_id : option str) : list document :=
  serialize <$> get_documents db "doctor" (list_doctors_query tenant_id) default_limit.

(** The filter of [list_patients]: [None] when the store refuses [search]
    as a pattern, and the request ends in its error. *)
Definition list_patients_query (tenant_id search : option str)
    : option (gmap string cond) :=
  let q := set_if "tenant_id" tenant_id ∅ in
  if truthy_opt search then
    _ ← regex_test (default [] search) (u "i");
    Some (<["full_name" := CRegex (default [] search) (u "i")]> q)
  else Some q.

Definition list_patients (db : database) (tenant_id search : option str)
    : option (list document) :=
  q ← list_patients_query tenant_id search;
  Some (serialize <$> get_documents db "patient" q None).

Definition list_appointments_query (doctor_id tenant_id status : option str)
    : gmap string cond :=
  set_if "status" status (set_if "tenant_id" tenant_id (set_if "doctor_id" doctor_id ∅)).

Definition list_appointments (db : database) (doctor_id tenant_id status : option str)
    : list document :=
  serialize <$> get_documents db "appointment"
                  (list_appointments_query doctor_id tenant_id status) default_limit.

Definition by_id (o : list N) : gmap string cond := {[ "_id" := CEq (VObjectId o) ]}.

Definition get_patient (db : database) (patient_id : str) : result document :=
  match oid patient_id with
  | Raise e => Raise e
  | Ok o =>
      match find_one (db !!! "patient") (by_id o) with
      | Some doc =>
          if decide (doc = ∅) then Raise (HTTPException 404 "Patient not found")
          else Ok (serialize doc)
      | None => Raise (HTTPException 404 "Patient not found")
      end
  end.

Definition get_appointment (db : database) (appointment_id : str) : result document :=
  match oid appointment_id with
  | Raise e => Raise e
  | Ok o =>
      match find_one (db !!! "appointment") (by_id o) with
      | Some doc =>
          if decide (doc = ∅) then Raise (HTTPException 404 "Appointment not found")
          else Ok (serialize doc)
      | None => Raise (HTTPException 404 "Appointment not found")
      end
  end.

End Handlers.

(** ** [DoctorUpdate] and [update_doctor] *)

Module DoctorUpdate.

Record t := {
  full_name : option str;
  phone : option str;
  specialty : option str;
  avatar_url : option str;
  bio : option str;
  facility_ids : option (list str)
}.

(** One entry of the dump: left out when the field is [None]. *)
Definition dump_field {A} (k : string) (f : A → value) (o : option A)
    (m : gmap string value) : gmap string value :=
  match o with
  | Some a => <[k := f a]> m
  | None => m
  end.

(** [payload.model_dump(exclude_none=True)] *)
Definition model_dump_exclude_none (p : t) : gmap string value :=
  dump_field "full_name" VStr (full_name p)
  (dump_field "phone" VStr (phone p)
  (dump_field "specialty" VStr (specialty p)
  (dump_field "avatar_url" VStr (avatar_url p)
  (dump_field "bio" VStr (bio p)
  (dump_field "facility_ids" VList (facility_ids p) ∅))))).

(** The body [{}]. *)
Definition empty : t :=
  {| full_name := None; phone := None; specialty := None; avatar_url := None;
     bio := None; facility_ids := None |}.

End DoctorUpdate.

Section UpdateDoctor.
Context `{Platform}.

(** The response is [{"updated": False}], or the document read back
    ([None] for the [null] that [serialize] passes through); the store is
    threaded through. *)
Definition update_doctor (db : database) (doctor_id : str) (payload : DoctorUpdate.t)
    : result (option document) * database :=
  let updates := DoctorUpdate.model_dump_exclude_none payload in
  if decide (updates = ∅) then (Ok (Some {[ "updated" := VBool false ]}), db)
  else
    match oid doctor_id with
    | Raise e => (Raise e, db)
    | Ok o =>
        let '(coll, matched_count) := update_one (db !!! "doctor") (by_id o) updates in
        if (matched_count =? 0)%nat
        then (Raise (HTTPException 404 "Doctor not found"), db)
        else
          let db' := <["doctor" := coll]> db in
          match oid doctor_id with
          | Raise e => (Raise e, db')
          | Ok o' => (Ok (serialize <$> find_one (db' !!! "doctor") (by_id o')), db')
          end
    end.

End UpdateDoctor.

(** ** [Appointment] *)

Module Appointment.

Record t := {
  doctor_id : str;
  patient_id : str;
  facility_id : option str;
  start_time : str;
  end_time : option str;
  status : str;
  reason : option str;
  notes : option str;
  tenant_id : option str
}.

(** A field declared [str] with no default. *)
Definition required_str (body : gmap string value) (k : string) : option str :=
  match body !! k with
  | Some (VStr s) => Some s
  | _ => None
  end.

(** A field declared [Optional[str] = None]. *)
Definition optional_str (body : gmap string value) (k : string) : option (option str) :=
  match body !! k with
  | None | Some VNone => Some None
  | Some (VStr s) => Some (Some s)
  | Some _ => None
  end.

(** A field declared [str] with a default. *)
Definition default_str (body : gmap string value) (k : string) (d : str) : option str :=
  match body !! k with
  | None => Some d
  | Some (VStr s) => Some s
  | Some _ => None
  end.

(** The model built from a JSON body, as the framework does before
    [create_appointment] runs; keys the model does not declare are ignored. *)
Definition validate (body : gmap string value) : result t :=
  let r :=
    d ← required_str body "doctor_id";
    p ← required_str body "patient_id";
    f ← optional_str body "facility_id";
    s ← required_str body "start_time";
    e ← optional_str body "end_time";
    st ← default_str body "status" (u "scheduled");
    re ← optional_str body "reason";
    n ← optional_str body "notes";
    t ← optional_str body "tenant_id";
    Some {| doctor_id := d; patient_id := p; facility_id := f; start_time := s;
            end_time := e; status := st; reason := re; notes := n; tenant_id := t |} in
  match r with
  | Some a => Ok a
  | None => Raise ValidationError
  end.

(** The values the description of [status] lists. *)
Definition status_values : list str :=
  [u "scheduled"; u "completed"; u "cancelled"; u "no_show"].

End Appointment.

(** ** [prescription_preview] *)

Module PrescriptionInput.

Record t := {
  medications : list (gmap string value);
  notes : option str
}.

End PrescriptionInput.

(** [sep.join(items)] on strings. *)
Fixpoint join (sep : str) (items : list str) : str :=
  match items with
  | [] => []
  | [s] => s
  | s :: rest => s ++ sep ++ join sep rest
  end.

Definition as_str (v : value) : option str :=
  match v with
  | VStr s => Some s
  | _ => None
  end.

(** [sep.join(items)] on objects: a [TypeError] unless every item is a
    string. *)
Definition join_values (sep : str) (items : list value) : result str :=
  match mapM as_str items with
  | Some l => Ok (join sep l)
  | None => Raise TypeError
  end.

(** [m.get(k, d)] *)
Definition get (m : gmap string value) (k : string) (d : value) : value :=
  default d (m !! k).

(** The em dash between two spaces. *)
Definition dash : str := [32; 8212; 32].

Section Preview.
Context `{Platform}.

(** The body of the loop: the line of one medication. *)
Definition medication_line (m : gmap string value) : result str :=
  let name := get m "name" (VStr (u "Medicine")) in
  let dose := get m "dose" (VStr []) in
  let route := get m "route" (VStr []) in
  let freq := get m "frequency" (VStr []) in
  let duration := get m "duration" (VStr []) in
  let note := get m "notes" (VStr []) in
  match join_values (u ", ") (List.filter truthy [name; dose; route; freq; duration]) with
  | Raise e => Raise e
  | Ok line => Ok (if truthy note then line ++ dash ++ py_str note else line)
  end.

Fixpoint preview_lines (ms : list (gmap string value)) : result (list str) :=
  match ms with
  | [] => Ok []
  | m :: ms' =>
      match medication_line m with
      | Raise e => Raise e
      | Ok line =>
          match preview_lines ms' with
          | Raise e => Raise e
          | Ok lines => Ok (line :: lines)
          end
      end
  end.

Definition prescription_preview (payload : PrescriptionInput.t)
    : result (gmap string value) :=
  match preview_lines (PrescriptionInput.medications payload) with
  | Raise e => Raise e
  | Ok lines =>
      Ok (<["preview" := VStr (join nl lines)]>
          (<["count" := VInt (Z.of_nat (length lines))]> ∅))
  end.

End Preview.

(** ** [list_emrs_for_patient] and [get_metrics] *)

Module Card.

(** One card of the dashboard, [{"label": ..., "value": ...}]. *)
Record t := {
  label : string;
  value : nat
}.

End Card.

Section Dashboard.
Context `{Platform}.

Definition list_emrs_for_patient (db : database) (patient_id : str) : list document :=
  serialize <$> get_documents db "emr" {[ "patient_id" := CEq (VStr patient_id) ]}
                  default_limit.

(** [collection.count_documents(q)] *)
Definition count_documents (coll : list document) (q : gmap string cond) : nat :=
  length (filter (λ d, doc_matches d q) coll).

(** The filter [{**q, "status": s}]. *)
Definition with_status_filter (q : gmap string cond) (s : string) : gmap string cond :=
  <["status" := CEq (VStr (u s))]> q.

Definition q_appt (doctor_id tenant_id : option str) : gmap string cond :=
  set_if "tenant_id" tenant_id (set_if "doctor_id" doctor_id ∅).

(** The list under the key [cards] of the response. *)
Definition get_metrics (db : database) (doctor_id tenant_id : option str) : list Card.t :=
  let q := q_appt doctor_id tenant_id in
  let total_appts := count_documents (db !!! "appointment") q in
  let completed := count_documents (db !!! "appointment") (with_status_filter q "completed") in
  let scheduled := count_documents (db !!! "appointment") (with_status_filter q "scheduled") in
  let cancelled := count_documents (db !!! "appointment") (with_status_filter q "cancelled") in
  [ {| Card.label := "Total Appointments"; Card.value := total_appts |};
    {| Card.label := "Scheduled"; Card.value := scheduled |};
    {| Card.label := "Completed"; Card.value := completed |};
    {| Card.label := "Cancelled"; Card.value := cancelled |} ].

End Dashboard.

(** ** The identifiers of [bson]

    An [ObjectId] is held as the lower-case hexadecimal text of its bytes,
    which is also its [str]. *)

Definition is_hex (c : N) : bool :=
  ((48 <=? c) && (c <=? 57)) || ((65 <=? c) && (c <=? 70)) || ((97 <=? c) && (c <=? 102)).

Definition ascii_lower (c : N) : N :=
  if (65 <=? c) && (c <=? 90) then c + 32 else c.

(** The whitespace [bytes.fromhex] skips: tab to carriage return, and the
    space. *)
Definition is_ascii_space (c : N) : bool :=
  ((9 <=? c) && (c <=? 13)) || (c =? 32).

(** [bytes.fromhex(s)]: pairs of hexadecimal digits, with whitespace
    allowed before a pair and at the end, never inside a pair; [None] where
    it raises. *)
Fixpoint fromhex (s : str) : option (list N) :=
  match s with
  | [] => Some []
  | c :: s' =>
      if is_ascii_space c then fromhex s'
      else if is_hex c then
        match s' with
        | d :: s'' =>
            if is_hex d
            then (λ r, ascii_lower c :: ascii_lower d :: r) <$> fromhex s''
            else None
        | [] => None
        end
      else None
  end.

(** [ObjectId(s)] on a string: the string has 24 characters and
    [bytes.fromhex] reads it. *)
Definition bson_ObjectId (s : str) : option (list N) :=
  if bool_decide (length s = 24%nat) then fromhex s else None.

(** ** A platform to run the handlers on examples

    Identifiers are those of [bson]; letters fold by ASCII case; the engine
    refuses every pattern it is asked about (the examples use patterns of
    ordinary characters and dots, which do not reach it); [get_documents] has
    no default limit. *)

Definition quoted (s : str) : str := u "'" ++ s ++ u "'".

Definition str_of_value (v : value) : str :=
  match v with
  | VNone => u "None"
  | VBool true => u "True"
  | VBool false => u "False"
  | VInt z => u (NilEmpty.string_of_int (Z.to_int z))
  | VStr s => s
  | VList l => u "[" ++ join (u ", ") (quoted <$> l) ++ u "]"
  | VObjectId o => o
  | VDatetime iso => iso
  end.

Definition example_platform : Platform := {|
  ObjectId := bson_ObjectId;
  py_str := str_of_value;
  py_str_VStr := λ s, eq_refl;
  casefold := ascii_lower;
  regex_engine := λ _ _, None;
  default_limit := None
|}.

(** * The vocabulary of the properties *)

(** ** The sections, stated on the text

    [label_at label text pre rest]: in [text] the label stands right after
    [pre], ignoring case, followed by a colon or a dash and then by
    [rest]. *)
Definition label_at (label text pre rest : str) : Prop :=
  ∃ l c, text = pre ++ l ++ c :: rest
         ∧ Forall2 (λ p x, literal_ignorecase p x = true) label l
         ∧ is_sep c = true.

(** The first such place of [text]. *)
Definition first_label_at (label text rest : str) : Prop :=
  ∃ pre, label_at label text pre rest
         ∧ ∀ pre' rest', label_at label text pre' rest' → (length pre ≤ length pre')%nat.

(** The value of the section of [label] in [text]: what follows the first
    place of the label, trimmed. *)
Definition section_value (label : string) (text v : str) : Prop :=
  ∃ rest, first_label_at (u label) text rest ∧ v = strip rest.

(** The sections that have one label: key and label. *)
Definition sections : list (string * string) :=
  [("history_of_present_illness", "hpi"); ("review_of_systems", "ros");
   ("physical_exam", "exam"); ("assessment", "assessment"); ("plan", "plan")]%string.

(** The keys a result can have. *)
Definition emr_keys : list string :=
  ["chief_complaint"; "history_of_present_illness"; "review_of_systems";
   "physical_exam"; "assessment"; "plan"; "summary"]%string.

(** ** Listings *)

(** A listing cut at the limit, when there is one. *)
Definition capped {A} (limit : option nat) (l : list A) : list A :=
  match limit with
  | Some n => take n l
  | None => l
  end.

(** ** Updates *)

(** The fields a [DoctorUpdate] can carry. *)
Definition update_keys : list string :=
  ["full_name"; "phone"; "specialty"; "avatar_url"; "bio"; "facility_ids"]%string.

(** A field after an update: the value provided, the prior value where none
    was provided. *)
Definition overwrite {A} (f : A → value) (provided : option A) (prior : option value)
    : option value :=
  match provided with
  | Some a => Some (f a)
  | None => prior
  end.

(** The body [{"full_name": X}]. *)
Definition only_full_name (X : str) : DoctorUpdate.t :=
  {| DoctorUpdate.full_name := Some X; DoctorUpdate.phone := None;
     DoctorUpdate.specialty := None; DoctorUpdate.avatar_url := None;
     DoctorUpdate.bio := None; DoctorUpdate.facility_ids := None |}.

(** The model [a] with another status. *)
Definition with_status (a : Appointment.t) (s : str) : Appointment.t :=
  {| Appointment.doctor_id := Appointment.doctor_id a;
     Appointment.patient_id := Appointment.patient_id a;
     Appointment.facility_id := Appointment.facility_id a;
     Appointment.start_time := Appointment.start_time a;
     Appointment.end_time := Appointment.end_time a;
     Appointment.status := s;
     Appointment.reason := Appointment.reason a;
     Appointment.notes := Appointment.notes a;
     Appointment.tenant_id := Appointment.tenant_id a |}.

(** ** Medications *)

(** The fields a line is made of, in the order of the line. *)
Definition line_fields : list string :=
  ["name"; "dose"; "route"; "frequency"; "duration"]%string.

(** Every field of the line that holds something holds a string. *)
Definition joinable (m : gmap string value) : Prop :=
  ∀ k v, k ∈ line_fields → m !! k = Some v → truthy v = true → ∃ s, v = VStr s.

(** The text of a field: [absent] when the medication has no such key,
    nothing when the key holds nothing. *)
Definition field_text (m : gmap string value) (k : string) (absent : str) : str :=
  match m !! k with
  | None => absent
  | Some (VStr s) => s
  | Some _ => []
  end.

(** The name holds the search string, ignoring the case of the ASCII
    letters: some stretch of it is the search string once both are put in
    lower case. *)
Definition contains_ascii_ci (search name : str) : Prop :=
  ∃ pre mid suf, name = pre ++ mid ++ suf ∧ ascii_lower <$> mid = ascii_lower <$> search.

(** A string of ASCII characters. *)
Definition is_ascii (s : str) : Prop := Forall (λ c, c < 128) s.

Section Statements.
Context `{Platform}.

(** The name holds the search string, ignoring case: some stretch of it
    folds to what the search string folds to. *)
Definition contains_ci (search name : str) : Prop :=
  ∃ pre mid suf, name = pre ++ mid ++ suf ∧ casefold <$> mid = casefold <$> search.

(** The engine folds the ASCII letters to lower case and no other ASCII
    character. *)
Definition ascii_fold : Prop := ∀ c, c < 128 → casefold c = ascii_lower c.


(** The line of a medication, in the words of the specification: the
    non-empty fields joined with a comma and a space, [Medicine] for a missing
    name, then the note, if there is one, after a dash. *)
Definition line_of (m : gmap string value) : str :=
  join (u ", ")
       (filter (λ t : str, t ≠ [])
          [field_text m "name" (u "Medicine"); field_text m "dose" [];
           field_text m "route" []; field_text m "frequency" [];
           field_text m "duration" []])
  ++ match m !! "notes" with
     | Some v => if truthy v then dash ++ py_str v else []
     | None => []
     end.

End Statements.

(** ** Responses *)

(** What [serialize] makes of a value: a [datetime] becomes its text. *)
Definition iso_value (v : value) : value :=
  match v with
  | VDatetime iso => VStr iso
  | _ => v
  end.

(** The status of a document is one of the three the dashboard counts. *)
Definition counted_status (d : document) : Prop :=
  d !! "status" = Some (VStr (u "scheduled"))
  ∨ d !! "status" = Some (VStr (u "completed"))
  ∨ d !! "status" = Some (VStr (u "cancelled")).

Global Instance counted_status_dec (d : document) : Decision (counted_status d).
Proof. unfold counted_status. apply _. Defined.

(** The response of [prescription_preview]. *)
Definition preview_response (preview : str) (count : Z) : gmap string value :=
  <["preview" := VStr preview]> (<["count" := VInt count]> ∅).

(** The keys an [Appointment] declares. *)
Definition appointment_keys : list string :=
  ["doctor_id"; "patient_id"; "facility_id"; "start_time"; "end_time"; "status";
   "reason"; "notes"; "tenant_id"]%string.

(** The value under a key is a string. *)
Definition is_string (o : option value) : Prop := ∃ s, o = Some (VStr s).

(** The value under a key is a string, [null], or missing. *)
Definition is_optional_string (o : option value) : Prop :=
  o = None ∨ o = Some VNone ∨ is_string o.

(** ** Example data *)

Definition bob_id : list N := u "65f0a1b2c3d4e5f601234567".
Definition alice_id : list N := u "65f0a1b2c3d4e5f601234568".
Definition who_id : list N := u "65f0a1b2c3d4e5f601234569".

Definition bob : document :=
  <["_id" := VObjectId bob_id]> (<["full_name" := VStr (u "Bob")]>
  (<["tenant_id" := VStr (u "t1")]> ∅)).

Definition alice : document :=
  <["_id" := VObjectId alice_id]> (<["full_name" := VStr (u "Alice Bobrov")]>
  (<["tenant_id" := VStr (u "t1")]> ∅)).

Definition dr_who : document :=
  <["_id" := VObjectId who_id]> (<["full_name" := VStr (u "Dr Who")]>
  (<["email" := VStr (u "who@example.org")]> (<["phone" := VNone]>
  (<["facility_ids" := VList []]> ∅)))).

Definition example_db : database :=
  <["patient" := [bob; alice]]> (<["doctor" := [dr_who]]> ∅).

Definition ibuprofen : gmap string value :=
  <["name" := VStr (u "Ibuprofen")]> (<["dose" := VStr (u "200mg")]>
  (<["frequency" := VStr (u "2x/day")]> ∅)).

Definition appointment_body : gmap string value :=
  <["doctor_id" := VStr who_id]> (<["patient_id" := VStr bob_id]>
  (<["start_time" := VStr (u "2024-05-01T10:00")]> ∅)).

Definition appointment_of (id status : string) : document :=
  <["_id" := VObjectId (u id)]> (<["doctor_id" := VStr who_id]>
  (<["status" := VStr (u status)]> ∅)).

Definition clinic_db : database :=
  <["appointment" := [appointment_of "65f0a1b2c3d4e5f601234570" "scheduled";
                      appointment_of "65f0a1b2c3d4e5f601234571" "completed";
                      appointment_of "65f0a1b2c3d4e5f601234572" "no_show";
                      appointment_of "65f0a1b2c3d4e5f601234573" "scheduled"]]>
    example_db.

Definition paracetamol : gmap string value :=
  <["dose" := VStr (u "500mg")]> (<["notes" := VStr (u "after meals")]> ∅).

(** * Properties *)

(** ** Trimming *)

Lemma lstrip_spaces (s : str) : Forall (λ c, isspace c = true) s → lstrip s = [].
Proof.
  induction 1 as [|c s Hc _ IH]; [done|]. simpl. by rewrite Hc.
Qed.

Lemma lstrip_nil_inv (s : str) : lstrip s = [] → Forall (λ c, isspace c = true) s.
Proof.
  induction s as [|c s IH]; [constructor|]. simpl.
  destruct (isspace c) eqn:Hc; [|done]. intros Hs. constructor; auto.
Qed.

Lemma lstrip_idemp (s : str) : lstrip (lstrip s) = lstrip s.
Proof.
  induction s as [|c s IH]; [done|]. simpl.
  destruct (isspace c) eqn:Hc; [done|]. simpl. by rewrite Hc.
Qed.

Lemma strip_nil_iff (s : str) : strip s = [] ↔ Forall (λ c, isspace c = true) s.
Proof.
  unfold strip, rstrip. split.
  - intros Hs. apply lstrip_nil_inv.
    apply (f_equal reverse) in Hs. rewrite reverse_involutive, reverse_nil in Hs.
    apply lstrip_nil_inv in Hs. rewrite Forall_reverse in Hs.
    destruct (lstrip s) as [|c r] eqn:Hl; [done|].
    assert (Hc : isspace c = false).
    { clear Hs. induction s as [|a s IH]; [done|]. simpl in Hl.
      destruct (isspace a) eqn:Ha; [auto|]. by simplify_eq. }
    apply Forall_cons in Hs as [Hc' _]. simpl in Hc'. congruence.
  - intros Hs. by rewrite (lstrip_spaces s Hs).
Qed.

Lemma strip_lstrip (s : str) : strip (lstrip s) = strip s.
Proof. unfold strip. by rewrite lstrip_idemp. Qed.

(** ** [generate_emr] *)

Lemma generate_emr_ok (conv : ConversationInput) :
  strip (transcript conv) ≠ [] →
  generate_emr conv = Ok (clean (emr_fields (strip (transcript conv)))).
Proof. unfold generate_emr. by destruct (strip (transcript conv)). Qed.

Lemma clean_lookup (emr : gmap string (option str)) (k : string) (v : str) :
  clean emr !! k = Some v ↔ v ≠ [] ∧ emr !! k = Some (Some v).
Proof.
  unfold clean. rewrite lookup_omap.
  destruct (emr !! k) as [[[|c w]|]|]; simpl; intuition congruence.
Qed.

Lemma match_label_spec (label s s' : str) :
  match_label label s = Some s'
  ↔ ∃ l, s = l ++ s' ∧ Forall2 (λ p x, literal_ignorecase p x = true) label l.
Proof.
  revert s. induction label as [|p label IH]; intros s; simpl.
  - split.
    + intros [= ->]. exists []. by split; [|constructor].
    + intros (l & -> & Hl). by inversion Hl.
  - destruct s as [|c s].
    + split; [done|]. intros (l & Hs & Hl). inversion Hl; simplify_eq.
    + destruct (literal_ignorecase p c) eqn:Hpc.
      * rewrite IH. split.
        -- intros (l & -> & Hl). exists (c :: l). split; [done|]. by constructor.
        -- intros (l & Hs & Hl). inversion Hl; simplify_eq/=. eauto.
      * split; [done|]. intros (l & Hs & Hl). inversion Hl; simplify_eq/=. congruence.
Qed.

Lemma match_at_spec (label s g : str) :
  match_at label s = Some g ↔ ∃ rest, label_at label s [] rest ∧ g = lstrip rest.
Proof.
  unfold match_at, label_at. split.
  - destruct (match_label label s) as [[|c rest]|] eqn:Hm; [done| |done].
    destruct (is_sep c) eqn:Hc; [|done]. intros [= <-].
    apply match_label_spec in Hm as (l & -> & Hl). exists rest. split; [|done].
    by exists l, c.
  - intros (rest & (l & c & Hs & Hl & Hc) & ->). simpl in Hs.
    assert (Hm : match_label label s = Some (c :: rest))
      by (apply match_label_spec; eauto).
    by rewrite Hm, Hc.
Qed.

Lemma label_at_inj (label text pre rest1 rest2 : str) :
  label_at label text pre rest1 → label_at label text pre rest2 → rest1 = rest2.
Proof.
  intros (l1 & c1 & H1 & Hl1 & _) (l2 & c2 & H2 & Hl2 & _).
  apply Forall2_length in Hl1, Hl2. rewrite H1 in H2.
  apply app_inv_head in H2. apply app_inj_1 in H2 as [_ H2]; [|congruence].
  by simplify_eq.
Qed.

Lemma label_at_cons (label : str) (a : N) (text pre rest : str) :
  label_at label (a :: text) (a :: pre) rest ↔ label_at label text pre rest.
Proof.
  unfold label_at. split; intros (l & c & Hs & Hl); exists l, c; split; try done.
  - simpl in Hs. by simplify_eq.
  - simpl. by f_equal.
Qed.

Lemma label_at_nonempty (label pre rest : str) : ¬ label_at label [] pre rest.
Proof.
  intros (l & c & Hs & _). symmetry in Hs.
  apply app_eq_nil in Hs as [_ Hs]. apply app_eq_nil in Hs as [_ Hs]. done.
Qed.

Lemma label_at_head (label : str) (a : N) (text pre rest : str) :
  label_at label (a :: text) pre rest →
  pre = [] ∨ ∃ pre', pre = a :: pre' ∧ label_at label text pre' rest.
Proof.
  destruct pre as [|b pre']; [by left|]. intros Hl. right.
  assert (b = a) as ->.
  { destruct Hl as (l & c & Hs & _). simpl in Hs. by simplify_eq. }
  exists pre'. split; [done|]. by apply label_at_cons in Hl.
Qed.

Lemma re_search_Some (label s g : str) :
  re_search label s = Some g ↔ ∃ rest, first_label_at label s rest ∧ g = lstrip rest.
Proof.
  revert g. induction s as [|a s IH]; intros g.
  - simpl. destruct (match_at label []) as [g0|] eqn:Hm.
    + apply match_at_spec in Hm as (rest & Hl & _). by apply label_at_nonempty in Hl.
    + split; [done|]. intros (rest & (pre & Hl & _) & _). by apply label_at_nonempty in Hl.
  - simpl. destruct (match_at label (a :: s)) as [g0|] eqn:Hm.
    + apply match_at_spec in Hm as (rest0 & Hl0 & ->). split.
      * intros [= <-]. exists rest0. split; [|done]. exists []. split; [done|].
        intros; simpl; lia.
      * intros (rest & (pre & Hl & Hmin) & ->).
        specialize (Hmin _ _ Hl0). destruct pre; [|simpl in Hmin; lia].
        by rewrite (label_at_inj _ _ _ _ _ Hl Hl0).
    + assert (Hno : ∀ rest, ¬ label_at label (a :: s) [] rest).
      { intros rest Hl.
        assert (match_at label (a :: s) = Some (lstrip rest))
          by (apply match_at_spec; eauto). congruence. }
      rewrite IH. split.
      * intros (rest & (pre & Hl & Hmin) & ->). exists rest. split; [|done].
        exists (a :: pre). split; [by apply label_at_cons|].
        intros pre' rest' Hl'.
        destruct (label_at_head _ _ _ _ _ Hl') as [->|(p & -> & Hl'')].
        -- by apply Hno in Hl'.
        -- specialize (Hmin _ _ Hl''). simpl. lia.
      * intros (rest & (pre & Hl & Hmin) & ->). exists rest. split; [|done].
        destruct (label_at_head _ _ _ _ _ Hl) as [->|(p & -> & Hl'')];
          [by apply Hno in Hl|].
        exists p. split; [done|]. intros pre' rest' Hl'.
        apply (label_at_cons label a) in Hl'. specialize (Hmin _ _ Hl').
        simpl in Hmin. lia.
Qed.

Lemma find_Some (text : str) (label : string) (v : str) :
  find text label = Some v ↔ section_value label text v.
Proof.
  unfold section_value.
  unfold find. destruct (re_search (u label) text) as [g|] eqn:Hs.
  - apply re_search_Some in Hs as (rest & Hf & ->). rewrite strip_lstrip. split.
    + intros [= <-]. eauto.
    + intros (rest' & (pre' & Hl' & Hmin') & ->). destruct Hf as (pre & Hl & Hmin).
      assert (length pre = length pre') as Hlen
        by (apply Nat.le_antisymm; eauto).
      assert (pre = pre') as <-.
      { destruct Hl as (l & c & H1 & _), Hl' as (l' & c' & H2 & _).
        rewrite H1 in H2. by apply app_inj_1 in H2 as [? _]. }
      by rewrite (label_at_inj _ _ _ _ _ Hl Hl').
  - split; [done|]. intros (rest & Hf & _).
    assert (re_search (u label) text = Some (lstrip rest))
      by (apply re_search_Some; eauto). congruence.
Qed.

Lemma py_or_Some (a b : option str) (v : str) :
  v ≠ [] →
  py_or a b = Some v
  ↔ a = Some v ∨ ((∀ w, a = Some w → w = []) ∧ b = Some v).
Proof.
  intros Hv. unfold py_or. destruct a as [[|c w]|]; simpl.
  - split; [intros ->; right; split; [by intros ? [= <-]|done]|].
    intros [[= <-]|[_ ->]]; done.
  - split; [by left|]. intros [?|[Hw _]]; [done|]. by specialize (Hw _ eq_refl).
  - split; [intros ->; by right|]. intros [?|[_ ->]]; done.
Qed.

Lemma emr_fields_keys (text : str) (k : string) :
  is_Some (emr_fields text !! k) → k ∈ emr_keys.
Proof.
  unfold emr_fields, emr_keys. intros Hk.
  repeat (rewrite lookup_insert in Hk; case_decide;
          [subst k; apply list_elem_of_In; simpl; tauto|]).
  rewrite lookup_empty in Hk. by destruct Hk.
Qed.

(** C1, as the specification has it, fails: the value of a section runs to
    the end of the text, through the labels that follow it. *)
Lemma chief_complaint_runs_to_the_end :
  ∃ emr, generate_emr {| transcript := example_transcript; style := None |} = Ok emr
         ∧ emr !! "chief_complaint" = Some (u "cough" ++ nl ++ u "Plan: rest")
         ∧ emr !! "chief_complaint" ≠ Some (u "cough").
Proof. eexists. split; [reflexivity|]. split; [reflexivity|]. by vm_compute. Qed.

(** C1, amended: on a transcript that is not blank, a section is found at
    the first place of the trimmed text where its label stands, ignoring case,
    followed by a colon or a dash; its value is all the text after that, to
    the end of the text, trimmed, and a section whose value is empty is left
    out.  The chief complaint takes the label [chief complaint] and, where
    that gives nothing, the label [cc].  The result has no keys but the six
    sections and the summary.  The transcript of the example gives the chief
    complaint [cough], a newline and [Plan: rest], the plan [rest], the
    summary, and nothing else. *)
Theorem generate_emr_sections :
  (∀ conv emr, generate_emr conv = Ok emr →
     (∀ key label v, (key, label) ∈ sections →
        emr !! key = Some v
        ↔ v ≠ [] ∧ section_value label (strip (transcript conv)) v)
     ∧ (∀ v, emr !! "chief_complaint" = Some v
        ↔ v ≠ []
          ∧ (section_value "chief complaint" (strip (transcript conv)) v
             ∨ ((∀ w, section_value "chief complaint" (strip (transcript conv)) w → w = [])
                ∧ section_value "cc" (strip (transcript conv)) v)))
     ∧ (∀ key, is_Some (emr !! key) → key ∈ emr_keys))
  ∧ generate_emr {| transcript := example_transcript; style := None |}
    = Ok (<["chief_complaint" := u "cough" ++ nl ++ u "Plan: rest"]>
          (<["plan" := u "rest"]> (<["summary" := example_transcript]> ∅))).
Proof.
  split; [|vm_compute; reflexivity].
  intros conv emr Hg. set (text := strip (transcript conv)).
  assert (Hne : strip (transcript conv) ≠ []).
  { unfold generate_emr in Hg. by destruct (strip (transcript conv)). }
  rewrite (generate_emr_ok conv Hne) in Hg. injection Hg as <-. fold text.
  split; [|split].
  - intros key label v Hin. rewrite clean_lookup, <- find_Some.
    assert (Hk : emr_fields text !! key = Some (find text label)).
    { unfold sections in Hin. unfold emr_fields.
      repeat (apply elem_of_cons in Hin as [[= -> ->]|Hin]; [by simplify_map_eq|]).
      by apply elem_of_nil in Hin. }
    rewrite Hk. split; intros [? ?]; split; congruence.
  - intros v. rewrite clean_lookup.
    assert (Hk : emr_fields text !! "chief_complaint"
                 = Some (py_or (find text "chief complaint") (find text "cc")))
      by (unfold emr_fields; by simplify_map_eq).
    rewrite Hk. split.
    + intros [Hv [= Hp]]. split; [done|].
      apply (py_or_Some _ _ _ Hv) in Hp as [Ha|[Ha Hb]].
      * left. by apply find_Some.
      * right. split; [|by apply find_Some].
        intros w Hw. apply Ha. by apply find_Some.
    + intros [Hv Hd]. split; [done|]. f_equal. apply (py_or_Some _ _ _ Hv).
      destruct Hd as [Ha|[Ha Hb]].
      * left. by apply find_Some.
      * right. split; [|by apply find_Some].
        intros w Hw. apply Ha. by apply find_Some.
  - intros key [v Hv]. apply clean_lookup in Hv as [_ Hv].
    apply (emr_fields_keys text). eauto.
Qed.

Lemma generate_emr_sections_witness :
  ∃ emr, generate_emr {| transcript := example_transcript; style := None |} = Ok emr
         ∧ ∀ v, emr !! "plan" = Some v
                ↔ v ≠ [] ∧ section_value "plan" (strip example_transcript) v.
Proof.
  eexists. split; [reflexivity|]. intros v.
  apply (proj1 (proj1 generate_emr_sections
                  {| transcript := example_transcript; style := None |} _ eq_refl)
               "plan" "plan" v).
  unfold sections. repeat constructor.
Defined.

(** C9: a transcript that is empty or made of whitespace only is refused
    with status 400, and nothing is extracted. *)
Theorem generate_emr_blank (conv : ConversationInput) :
  Forall (λ c, isspace c = true) (transcript conv) →
  generate_emr conv = Raise (HTTPException 400 "Transcript is empty").
Proof.
  intros Hs. apply strip_nil_iff in Hs. unfold generate_emr. by rewrite Hs.
Qed.

Lemma generate_emr_blank_witness :
  generate_emr {| transcript := u "  " ++ nl; style := None |}
  = Raise (HTTPException 400 "Transcript is empty").
Proof.
  apply (generate_emr_blank {| transcript := u "  " ++ nl; style := None |}).
  simpl. repeat constructor.
Defined.

(** C2, as the specification has it, fails: the summary is cut from the
    trimmed text, so leading whitespace of the input is not in it. *)
Lemma summary_is_not_input_prefix :
  ∃ emr, generate_emr {| transcript := u " a"; style := None |} = Ok emr
         ∧ emr !! "summary" = Some (u "a")
         ∧ emr !! "summary" ≠ Some (take 500 (u " a")).
Proof. eexists. split; [reflexivity|]. split; [reflexivity|]. by vm_compute. Qed.

(** C2, amended: for every transcript that is not blank the result has a
    summary, the first 500 characters of the trimmed transcript. *)
Theorem generate_emr_summary (conv : ConversationInput) :
  strip (transcript conv) ≠ [] →
  ∃ emr, generate_emr conv = Ok emr
         ∧ emr !! "summary" = Some (take 500 (strip (transcript conv))).
Proof.
  intros Hne. eexists. split; [by apply generate_emr_ok|].
  apply clean_lookup. split.
  - destruct (strip (transcript conv)); done.
  - unfold emr_fields. by simplify_map_eq.
Qed.

Lemma generate_emr_summary_witness :
  ∃ emr, generate_emr {| transcript := u " a"; style := None |} = Ok emr
         ∧ emr !! "summary" = Some (take 500 (strip (u " a"))).
Proof.
  apply (generate_emr_summary {| transcript := u " a"; style := None |}).
  by vm_compute.
Defined.

(** ** The store *)

Section Store.
Context `{Platform}.

Lemma doc_matches_by_id (d : document) (o : list N) :
  doc_matches d (by_id o) = true ↔ d !! "_id" = Some (VObjectId o).
Proof.
  unfold doc_matches, by_id. rewrite bool_decide_eq_true, map_Forall_singleton.
  simpl. destruct (d !! "_id") as [w|].
  - rewrite orb_true_iff, bool_decide_eq_true. split.
    + intros [->|Hw]; [done|]. by destruct w.
    + intros [= ->]. by left.
  - rewrite ?bool_decide_eq_true. split; done.
Qed.

Lemma doc_matches_empty (d : document) : doc_matches d ∅ = true.
Proof. unfold doc_matches. apply bool_decide_eq_true, map_Forall_empty. Qed.

Lemma doc_matches_insert (d : document) (q : gmap string cond) (k : string) (c : cond) :
  q !! k = None →
  doc_matches d (<[k := c]> q) = cond_holds (d !! k) c && doc_matches d q.
Proof.
  intros Hk. unfold doc_matches. apply eq_true_iff_eq.
  rewrite andb_true_iff, !bool_decide_eq_true. by rewrite map_Forall_insert.
Qed.


Lemma update_one_None (coll : list document) (q : gmap string cond)
    (updates : gmap string value) :
  (∀ d, d ∈ coll → doc_matches d q = false) → update_one coll q updates = (coll, 0%nat).
Proof.
  induction coll as [|d coll IH]; intros Hno; [done|]. simpl.
  rewrite (Hno d) by (by left). rewrite IH; [done|].
  intros d' Hd'. apply Hno. by right.
Qed.

Lemma find_one_Some (coll : list document) (q : gmap string cond) (d : document) :
  find_one coll q = Some d →
  ∃ pre post, coll = pre ++ d :: post
              ∧ Forall (λ x, doc_matches x q = false) pre
              ∧ doc_matches d q = true.
Proof.
  unfold find_one. induction coll as [|x coll IH]; [done|].
  rewrite filter_cons. destruct (doc_matches x q) eqn:Hx; simpl.
  - intros [= ->]. exists [], coll. by repeat split.
  - intros Hd. destruct (IH Hd) as (pre & post & -> & Hpre & Hm).
    exists (x :: pre), post. repeat split; [|done]. by constructor.
Qed.

Lemma find_one_middle (pre post : list document) (q : gmap string cond) (d : document) :
  Forall (λ x, doc_matches x q = false) pre → doc_matches d q = true →
  find_one (pre ++ d :: post) q = Some d.
Proof.
  unfold find_one. induction 1 as [|x pre Hx _ IH]; intros Hd; simpl.
  - rewrite filter_cons. by rewrite Hd.
  - rewrite filter_cons, Hx. simpl. by apply IH.
Qed.

Lemma update_one_middle (pre post : list document) (q : gmap string cond)
    (updates : gmap string value) (d : document) :
  Forall (λ x, doc_matches x q = false) pre → doc_matches d q = true →
  update_one (pre ++ d :: post) q updates = (pre ++ (updates ∪ d) :: post, 1%nat).
Proof.
  induction 1 as [|x pre Hx _ IH]; intros Hd; simpl.
  - by rewrite Hd.
  - rewrite Hx, IH; done.
Qed.

Lemma dump_field_lookup_ne {A} (k k' : string) (f : A → value) (o : option A)
    (m : gmap string value) :
  k ≠ k' → DoctorUpdate.dump_field k f o m !! k' = m !! k'.
Proof. intros Hk. destruct o; simpl; [by rewrite lookup_insert_ne|done]. Qed.

Lemma dump_field_lookup_eq {A} (k : string) (f : A → value) (o : option A)
    (m : gmap string value) :
  m !! k = None → DoctorUpdate.dump_field k f o m !! k = f <$> o.
Proof. intros Hk. destruct o; simpl; [by rewrite lookup_insert_eq|done]. Qed.

Lemma model_dump_fields (p : DoctorUpdate.t) :
  let m := DoctorUpdate.model_dump_exclude_none p in
  m !! "full_name" = VStr <$> DoctorUpdate.full_name p
  ∧ m !! "phone" = VStr <$> DoctorUpdate.phone p
  ∧ m !! "specialty" = VStr <$> DoctorUpdate.specialty p
  ∧ m !! "avatar_url" = VStr <$> DoctorUpdate.avatar_url p
  ∧ m !! "bio" = VStr <$> DoctorUpdate.bio p
  ∧ m !! "facility_ids" = VList <$> DoctorUpdate.facility_ids p.
Proof.
  unfold DoctorUpdate.model_dump_exclude_none.
  repeat split;
    rewrite ?dump_field_lookup_ne by done;
    (rewrite dump_field_lookup_eq; [done|]);
    by rewrite ?dump_field_lookup_ne by done.
Qed.

Lemma model_dump_other (p : DoctorUpdate.t) (k : string) :
  k ∉ update_keys → DoctorUpdate.model_dump_exclude_none p !! k = None.
Proof.
  unfold update_keys. intros Hk.
  assert (k ≠ "full_name" ∧ k ≠ "phone" ∧ k ≠ "specialty" ∧ k ≠ "avatar_url"
          ∧ k ≠ "bio" ∧ k ≠ "facility_ids") as (?&?&?&?&?&?).
  { repeat split; intros ->; apply Hk; apply list_elem_of_In; simpl; tauto. }
  unfold DoctorUpdate.model_dump_exclude_none.
  by rewrite !dump_field_lookup_ne by done.
Qed.

Lemma model_dump_empty_iff (p : DoctorUpdate.t) :
  DoctorUpdate.model_dump_exclude_none p = ∅ ↔ p = DoctorUpdate.empty.
Proof.
  split; [|by intros ->].
  intros Hm. pose proof (model_dump_fields p) as Hf. simpl in Hf. rewrite Hm in Hf.
  rewrite !lookup_empty in Hf. destruct p as [[?|] [?|] [?|] [?|] [?|] [?|]];
    simpl in Hf; destruct Hf as (?&?&?&?&?&?); simplify_eq; done.
Qed.

(** *** Getting and updating by identifier *)








(** C7: an update whose body provides no field writes nothing, raises
    nothing, whatever the identifier, and answers [{"updated": False}]. *)
Theorem update_doctor_empty (db : database) (doctor_id : str) (p : DoctorUpdate.t) :
  DoctorUpdate.model_dump_exclude_none p = ∅ →
  update_doctor db doctor_id p = (Ok (Some {[ "updated" := VBool false ]}), db).
Proof. intros Hp. unfold update_doctor. by rewrite decide_True. Qed.

(** C8: an update that provides a field, on a doctor that exists, rewrites
    that one document: each field provided takes the value provided, every
    other key of the document keeps its value, the documents around it are the
    same, and the answer is the document read back.  With the body
    [{"full_name": X}] only [full_name] changes. *)
Theorem update_doctor_frame (db : database) (doctor_id : str) (p : DoctorUpdate.t)
    (o : list N) (d : document) :
  ObjectId doctor_id = Some o →
  find_one (db !!! "doctor") (by_id o) = Some d →
  DoctorUpdate.model_dump_exclude_none p ≠ ∅ →
  ∃ pre post d',
    db !!! "doctor" = pre ++ d :: post
    ∧ update_doctor db doctor_id p
      = (Ok (Some (serialize d')), <["doctor" := pre ++ d' :: post]> db)
    ∧ d' !! "full_name" = overwrite VStr (DoctorUpdate.full_name p) (d !! "full_name")
    ∧ d' !! "phone" = overwrite VStr (DoctorUpdate.phone p) (d !! "phone")
    ∧ d' !! "specialty" = overwrite VStr (DoctorUpdate.specialty p) (d !! "specialty")
    ∧ d' !! "avatar_url" = overwrite VStr (DoctorUpdate.avatar_url p) (d !! "avatar_url")
    ∧ d' !! "bio" = overwrite VStr (DoctorUpdate.bio p) (d !! "bio")
    ∧ d' !! "facility_ids"
      = overwrite VList (DoctorUpdate.facility_ids p) (d !! "facility_ids")
    ∧ (∀ k, k ∉ update_keys → d' !! k = d !! k)
    ∧ (∀ X, p = only_full_name X →
         d' !! "full_name" = Some (VStr X) ∧ ∀ k, k ≠ "full_name" → d' !! k = d !! k).
Proof.
  intros Hval Hfind Hp.
  destruct (find_one_Some _ _ _ Hfind) as (pre & post & Hcoll & Hpre & Hd).
  set (updates := DoctorUpdate.model_dump_exclude_none p) in *.
  assert (Hother : ∀ k, k ∉ update_keys → (updates ∪ d) !! k = d !! k).
  { intros k Hk. apply lookup_union_r. by apply model_dump_other. }
  assert (Hd' : doc_matches (updates ∪ d) (by_id o) = true).
  { apply doc_matches_by_id. rewrite Hother.
    - by apply doc_matches_by_id.
    - unfold update_keys. intros Hin. apply list_elem_of_In in Hin. simpl in Hin.
      intuition discriminate. }
  assert (Hfield : ∀ A (f : A → value) k (v : option A),
            updates !! k = f <$> v → (updates ∪ d) !! k = overwrite f v (d !! k)).
  { intros A f k v Hk. destruct v as [a|]; simpl in *.
    - rewrite lookup_union_l' by (by rewrite Hk). done.
    - by apply lookup_union_r. }
  destruct (model_dump_fields p) as (H1 & H2 & H3 & H4 & H5 & H6).
  fold updates in H1, H2, H3, H4, H5, H6.
  exists pre, post, (updates ∪ d). split; [done|]. split.
  - unfold update_doctor, oid. fold updates. rewrite decide_False by done.
    rewrite Hval, Hcoll, (update_one_middle _ _ _ _ _ Hpre Hd). simpl.
    rewrite lookup_total_insert_eq. by rewrite (find_one_middle _ _ _ _ Hpre Hd').
  - do 6 (split; [by apply Hfield|]). split; [done|]. intros X Hp'. split.
    + subst p. by rewrite (Hfield _ _ _ _ H1).
    + intros k Hk. subst p. apply lookup_union_r.
      unfold updates, only_full_name, DoctorUpdate.model_dump_exclude_none,
        DoctorUpdate.dump_field. simpl. by rewrite lookup_insert_ne.
Qed.

(** *** Listing *)

Lemma get_documents_all (db : database) (c : string) (limit : option nat) :
  get_documents db c ∅ limit = capped limit (reverse (db !!! c)).
Proof.
  unfold get_documents, capped.
  assert (Hall : ∀ l : list document, filter (λ d, doc_matches d ∅) l = l).
  { induction l as [|d l IH]; [done|].
    rewrite filter_cons_True by (by rewrite doc_matches_empty). by rewrite IH. }
  by rewrite Hall.
Qed.

(** C10: in the three listings a parameter given as the empty string adds
    no condition to the filter, so the listing is the one without the
    parameter; with every parameter empty or absent the listing has every
    document of the collection, up to the limit. *)
Theorem empty_parameter_is_absent (db : database) :
  (∀ key q, set_if key (Some []) q = q ∧ set_if key None q = q)
  ∧ list_doctors db (Some []) = list_doctors db None
  ∧ (∀ search, list_patients db (Some []) search = list_patients db None search)
  ∧ (∀ tenant_id, list_patients db tenant_id (Some []) = list_patients db tenant_id None)
  ∧ (∀ tenant_id status,
       list_appointments db (Some []) tenant_id status
       = list_appointments db None tenant_id status)
  ∧ (∀ doctor_id status,
       list_appointments db doctor_id (Some []) status
       = list_appointments db doctor_id None status)
  ∧ (∀ doctor_id tenant_id,
       list_appointments db doctor_id tenant_id (Some [])
       = list_appointments db doctor_id tenant_id None)
  ∧ list_doctors db (Some [])
    = serialize <$> capped default_limit (reverse (db !!! "doctor"))
  ∧ list_patients db (Some []) (Some [])
    = Some (serialize <$> reverse (db !!! "patient"))
  ∧ list_appointments db (Some []) (Some []) (Some [])
    = serialize <$> capped default_limit (reverse (db !!! "appointment")).
Proof.
  do 7 (split; [done|]). split; [|split].
  - change (list_doctors db (Some []))
      with (serialize <$> get_documents db "doctor" ∅ default_limit).
    by rewrite get_documents_all.
  - change (list_patients db (Some []) (Some []))
      with (Some (serialize <$> get_documents db "patient" ∅ None)).
    by rewrite get_documents_all.
  - change (list_appointments db (Some []) (Some []) (Some []))
      with (serialize <$> get_documents db "appointment" ∅ default_limit).
    by rewrite get_documents_all.
Qed.

Lemma regex_compile_plain (search : str) :
  Forall (λ c, is_meta c = false) search → regex_compile search = Some (Chr <$> search).
Proof.
  intros Hs. unfold regex_compile. apply mapM_Some.
  induction Hs as [|c search Hc _ IH]; simpl; constructor; [|done].
  rewrite Hc. destruct (N.eqb_spec c 46) as [->|]; [|done]. by vm_compute in Hc.
Qed.

Lemma atoms_match_plain (p s : str) :
  atoms_match true (Chr <$> p) s = true
  ↔ ∃ mid suf, s = mid ++ suf ∧ casefold <$> mid = casefold <$> p.
Proof.
  revert s. induction p as [|a p IH]; intros s; simpl.
  - split; [|done]. intros _. by exists [], s.
  - destruct s as [|c s].
    + split; [done|]. intros (mid & suf & Hs & Hm).
      symmetry in Hs. apply app_eq_nil in Hs as [-> _]. done.
    + rewrite andb_true_iff, bool_decide_eq_true, IH. split.
      * intros (Hac & mid & suf & -> & Hm). exists (c :: mid), suf.
        split; [done|]. csimpl. by rewrite Hac, Hm.
      * intros (mid & suf & Hs & Hm). destruct mid as [|c' mid]; [done|].
        csimpl in *. simplify_eq. split; [done|]. by exists mid, suf.
Qed.

Lemma regex_search_plain (p s : str) :
  regex_search true (Chr <$> p) s = true ↔ contains_ci p s.
Proof.
  unfold contains_ci. induction s as [|c s IH]; simpl.
  - rewrite orb_false_r, atoms_match_plain. split.
    + intros (mid & suf & Hs & Hm). by exists [], mid, suf.
    + intros (pre & mid & suf & Hs & Hm). symmetry in Hs.
      apply app_eq_nil in Hs as [-> Hs]. eauto.
  - rewrite orb_true_iff, atoms_match_plain, IH. split.
    + intros [(mid & suf & Hs & Hm)|(pre & mid & suf & -> & Hm)].
      * by exists [], mid, suf.
      * by exists (c :: pre), mid, suf.
    + intros (pre & mid & suf & Hs & Hm). destruct pre as [|c' pre].
      * left. simpl in Hs. eauto.
      * right. simpl in Hs. simplify_eq. eauto 6.
Qed.

Lemma set_if_tenant_lookup (tenant_id : option str) (k : string) :
  k ≠ "tenant_id" → set_if "tenant_id" tenant_id ∅ !! k = None.
Proof.
  intros Hk. unfold set_if. destruct (truthy_opt tenant_id); [|done].
  by rewrite lookup_insert_ne.
Qed.

Lemma elem_of_get_documents (db : database) (c : string) (q : gmap string cond)
    (d : document) :
  d ∈ get_documents db c q None ↔ d ∈ db !!! c ∧ doc_matches d q = true.
Proof.
  unfold get_documents. rewrite list_elem_of_filter, elem_of_reverse.
  rewrite Is_true_true. tauto.
Qed.

Lemma regex_test_plain (search : str) :
  Forall (λ c, is_meta c = false) search →
  regex_test search (u "i") = Some (regex_search true (Chr <$> search)).
Proof.
  intros Hs. unfold regex_test.
  change (forallb (N.eqb 105) (u "i")) with true. cbv iota.
  by rewrite (regex_compile_plain _ Hs).
Qed.

Lemma cond_holds_plain (search name : str) :
  Forall (λ c, is_meta c = false) search →
  cond_holds (Some (VStr name)) (CRegex search (u "i")) = true ↔ contains_ci search name.
Proof.
  intros Hs. unfold cond_holds. rewrite (regex_test_plain _ Hs).
  apply regex_search_plain.
Qed.

Lemma contains_ci_ascii (search name : str) :
  ascii_fold → is_ascii search → is_ascii name →
  contains_ci search name ↔ contains_ascii_ci search name.
Proof.
  intros Hfold Hs Hn.
  assert (Hl : ∀ l : str, is_ascii l → casefold <$> l = ascii_lower <$> l).
  { intros l Hl. apply Forall_fmap_ext_1. eapply Forall_impl; [exact Hl|].
    intros c Hc. by apply Hfold. }
  unfold contains_ci, contains_ascii_ci.
  split; intros (pre & mid & suf & -> & Hm); exists pre, mid, suf; (split; [done|]);
    apply Forall_app in Hn as [_ Hn]; apply Forall_app in Hn as [Hn _];
    rewrite (Hl _ Hs), (Hl _ Hn) in *; done.
Qed.

(** C3, as the specification has it, is settled by [list_patients_dot]
    below; amended: when the search string has none of the characters that
    mean something in a pattern, a patient document is listed exactly when the
    listing without the search has it and its [full_name] holds the search
    string, ignoring case: for a search string and a name of ASCII characters,
    when some stretch of the name is the search string once both are put in
    lower case.  The listing without the search has the documents of the
    collection that carry the [tenant_id] asked for, or all of them when none
    is asked for. *)
Theorem list_patients_search (db : database) (tenant_id : option str) (search : str) :
  ascii_fold →
  Forall (λ c, is_meta c = false) search →
  ∃ ds ds0,
    list_patients db tenant_id (Some search) = Some (serialize <$> ds)
    ∧ list_patients db tenant_id None = Some (serialize <$> ds0)
    ∧ (∀ d, d ∈ ds0
         ↔ d ∈ db !!! "patient"
           ∧ ∀ t, tenant_id = Some t → t ≠ [] →
                  cond_holds (d !! "tenant_id") (CEq (VStr t)) = true)
    ∧ (∀ d name, d !! "full_name" = Some (VStr name) →
         d ∈ ds ↔ d ∈ ds0 ∧ contains_ci search name)
    ∧ (∀ d name, d !! "full_name" = Some (VStr name) →
         is_ascii search → is_ascii name →
         d ∈ ds ↔ d ∈ ds0 ∧ contains_ascii_ci search name).
Proof.
  intros Hfold Hs.
  set (q := set_if "tenant_id" tenant_id ∅).
  set (ds := get_documents db "patient"
               (if truthy_opt (Some search)
                then <["full_name" := CRegex search (u "i")]> q else q) None).
  assert (Hds : ∀ d name, d !! "full_name" = Some (VStr name) →
            d ∈ ds ↔ d ∈ get_documents db "patient" q None ∧ contains_ci search name).
  { intros d name Hname. unfold ds. rewrite !elem_of_get_documents.
    destruct search as [|c search].
    - split; [|tauto]. intros ?. split; [done|]. by exists [], [], name.
    - change (truthy_opt (Some (c :: search))) with true. cbv iota.
      rewrite doc_matches_insert by (by apply set_if_tenant_lookup).
      rewrite andb_true_iff, Hname, (cond_holds_plain _ _ Hs). tauto. }
  exists ds, (get_documents db "patient" q None).
  split; [|split; [done|split; [|split]]].
  - unfold list_patients, list_patients_query. fold q.
    destruct search as [|c search]; [done|].
    change (default [] (Some (c :: search))) with (c :: search).
    change (truthy_opt (Some (c :: search))) with true. cbv iota.
    by rewrite (regex_test_plain _ Hs).
  - intros d. rewrite elem_of_get_documents. unfold q, set_if.
    destruct tenant_id as [[|c t]|]; simpl.
    + rewrite doc_matches_empty. split; intros [? _]; (split; [done|]); [|done].
      by intros t [= <-] Ht.
    + rewrite doc_matches_insert, doc_matches_empty, andb_true_r by done.
      split.
      * intros [? Hc]. split; [done|]. by intros ? [= <-] _.
      * intros [? Hc]. split; [done|]. by apply Hc.
    + rewrite doc_matches_empty. split; intros [? _]; (split; [done|]); [|done].
      by intros t [=].
  - exact Hds.
  - intros d name Hname Hsa Hna.
    rewrite (Hds d name Hname), (contains_ci_ascii _ _ Hfold Hsa Hna). tauto.
Qed.

End Store.

(** ** [Appointment] *)

(** C5: the description of [status] names four values, and nothing checks
    them: a body whose status is another string is accepted as it is. *)
Theorem appointment_status_unchecked :
  ∃ a, Appointment.validate
         (<["doctor_id" := VStr (u "d1")]> (<["patient_id" := VStr (u "p1")]>
          (<["start_time" := VStr (u "2024-05-01T10:00")]>
           (<["status" := VStr (u "banana")]> ∅)))) = Ok a
       ∧ Appointment.status a = u "banana"
       ∧ Appointment.status a ∉ Appointment.status_values.
Proof.
  eexists. split; [reflexivity|]. split; [reflexivity|].
  intros Hin. apply list_elem_of_In in Hin. simpl in Hin.
  repeat (destruct Hin as [Hin|Hin]; [discriminate Hin|]). done.
Qed.

(** A validation that stops at a field, against a model. *)
Ltac refuse := split; [intros [=] | intuition congruence].

Lemma validate_Ok (body : gmap string value) (a : Appointment.t) :
  Appointment.validate body = Ok a
  ↔ Appointment.required_str body "doctor_id" = Some (Appointment.doctor_id a)
    ∧ Appointment.required_str body "patient_id" = Some (Appointment.patient_id a)
    ∧ Appointment.optional_str body "facility_id" = Some (Appointment.facility_id a)
    ∧ Appointment.required_str body "start_time" = Some (Appointment.start_time a)
    ∧ Appointment.optional_str body "end_time" = Some (Appointment.end_time a)
    ∧ Appointment.default_str body "status" (u "scheduled") = Some (Appointment.status a)
    ∧ Appointment.optional_str body "reason" = Some (Appointment.reason a)
    ∧ Appointment.optional_str body "notes" = Some (Appointment.notes a)
    ∧ Appointment.optional_str body "tenant_id" = Some (Appointment.tenant_id a).
Proof.
  unfold Appointment.validate.
  destruct (Appointment.required_str body "doctor_id"); simpl; [|refuse].
  destruct (Appointment.required_str body "patient_id"); simpl; [|refuse].
  destruct (Appointment.optional_str body "facility_id"); simpl; [|refuse].
  destruct (Appointment.required_str body "start_time"); simpl; [|refuse].
  destruct (Appointment.optional_str body "end_time"); simpl; [|refuse].
  destruct (Appointment.default_str body "status" (u "scheduled")); simpl; [|refuse].
  destruct (Appointment.optional_str body "reason"); simpl; [|refuse].
  destruct (Appointment.optional_str body "notes"); simpl; [|refuse].
  destruct (Appointment.optional_str body "tenant_id"); simpl; [|refuse].
  destruct a; simpl. split.
  - intros [= -> -> -> -> -> -> -> -> ->]. by repeat split.
  - intros ([= ->]&[= ->]&[= ->]&[= ->]&[= ->]&[= ->]&[= ->]&[= ->]&[= ->]). done.
Qed.

(** The status of an accepted appointment is the string the body gives, and
    [scheduled] when the body gives none; every string is accepted as a
    status. *)
Lemma appointment_status (body : gmap string value) (a : Appointment.t) :
  Appointment.validate body = Ok a →
  (body !! "status" = None → Appointment.status a = u "scheduled")
  ∧ (∀ v, body !! "status" = Some v → v = VStr (Appointment.status a))
  ∧ (∀ s, Appointment.validate (<["status" := VStr s]> body) = Ok (with_status a s)).
Proof.
  intros Hv. pose proof Hv as Hv'. apply validate_Ok in Hv' as (H1&H2&H3&H4&H5&H6&H7&H8&H9).
  split; [|split].
  - intros Hs. unfold Appointment.default_str in H6. rewrite Hs in H6. congruence.
  - intros v Hs. unfold Appointment.default_str in H6. rewrite Hs in H6.
    destruct v; congruence.
  - intros s. apply validate_Ok. simpl.
    unfold Appointment.required_str, Appointment.optional_str, Appointment.default_str in *.
    rewrite lookup_insert_eq.
    rewrite !lookup_insert_ne by done. done.
Qed.

(** ** [prescription_preview] *)

Section PreviewProperties.
Context `{Platform}.

Lemma strings_joined (vs : list value) (ts : list str) :
  Forall2 (λ v t, v = VStr t ∨ (truthy v = false ∧ t = [])) vs ts →
  mapM as_str (List.filter truthy vs) = Some (filter (λ t : str, t ≠ []) ts).
Proof.
  induction 1 as [|v t vs ts Hvt _ IH]; [done|]. simpl.
  destruct Hvt as [->|[Hv ->]].
  - destruct t as [|c t]; simpl.
    + by rewrite filter_cons_False by auto.
    + rewrite filter_cons_True by done. simpl. by rewrite IH.
  - rewrite Hv. by rewrite filter_cons_False by auto.
Qed.

Lemma joined_strings (vs : list value) (l : list str) (v : value) :
  mapM as_str (List.filter truthy vs) = Some l → v ∈ vs → truthy v = true →
  ∃ s, v = VStr s.
Proof.
  revert l. induction vs as [|w vs IH]; intros l Hm Hv Ht.
  - by apply elem_of_nil in Hv.
  - simpl in Hm. apply elem_of_cons in Hv as [->|Hv].
    + rewrite Ht in Hm. simpl in Hm. destruct w; simplify_eq/=. eauto.
    + destruct (truthy w); [|by eapply IH].
      simpl in Hm. destruct (as_str w); [|done]. simpl in Hm.
      destruct (mapM as_str (List.filter truthy vs)) eqn:Hr; [|done].
      by eapply IH.
Qed.

Lemma get_field_text (m : gmap string value) (k : string) (absent : str) :
  joinable m → k ∈ line_fields →
  get m k (VStr absent) = VStr (field_text m k absent)
  ∨ (truthy (get m k (VStr absent)) = false ∧ field_text m k absent = []).
Proof.
  intros Hj Hk. unfold get, field_text. destruct (m !! k) as [v|] eqn:Hv; simpl.
  - destruct (truthy v) eqn:Ht.
    + destruct (Hj k v Hk Hv Ht) as [s ->]. by left.
    + right. split; [done|]. by destruct v as [| | |[|]| | |].
  - by left.
Qed.

Lemma medication_line_joinable (m : gmap string value) :
  joinable m → medication_line m = Ok (line_of m).
Proof.
  intros Hj. unfold medication_line, join_values, line_of.
  assert (Hin : ∀ k, In k line_fields → k ∈ line_fields)
    by (intros k; apply list_elem_of_In).
  rewrite (strings_joined _
             [field_text m "name" (u "Medicine"); field_text m "dose" [];
              field_text m "route" []; field_text m "frequency" [];
              field_text m "duration" []]).
  - unfold get. destruct (m !! "notes") as [v|]; simpl.
    + destruct (truthy v); [done|by rewrite app_nil_r].
    + by rewrite app_nil_r.
  - repeat (constructor; [apply get_field_text; [done|apply Hin; simpl; tauto]|]).
    constructor.
Qed.

Lemma medication_line_Ok (m : gmap string value) (line : str) :
  medication_line m = Ok line → joinable m.
Proof.
  unfold medication_line, join_values. intros Hl k v Hk Hv Ht.
  destruct (mapM as_str _) as [l|] eqn:Hm; [|done].
  apply (joined_strings _ _ v Hm); [|done].
  replace v with (get m k (VStr (if decide (k = "name") then u "Medicine" else [])))
    by (unfold get; by rewrite Hv).
  unfold line_fields in Hk.
  repeat (apply elem_of_cons in Hk as [->|Hk];
          [apply list_elem_of_In; simpl; tauto|]).
  by apply elem_of_nil in Hk.
Qed.

Lemma preview_lines_joinable (ms : list (gmap string value)) :
  Forall joinable ms → preview_lines ms = Ok (line_of <$> ms).
Proof.
  induction 1 as [|m ms Hm _ IH]; [done|]. simpl.
  by rewrite (medication_line_joinable m Hm), IH.
Qed.

Lemma preview_lines_Ok (ms : list (gmap string value)) (lines : list str) :
  preview_lines ms = Ok lines → Forall joinable ms.
Proof.
  revert lines. induction ms as [|m ms IH]; intros lines; [constructor|]. simpl.
  destruct (medication_line m) as [line|] eqn:Hl; [|done].
  destruct (preview_lines ms) as [ls|] eqn:Hls; [|done]. intros _.
  constructor; [by eapply medication_line_Ok|by eapply IH].
Qed.

(** C4, amended: for every list of medications in which the fields [name],
    [dose], [route], [frequency] and [duration] hold strings wherever they
    hold something, the preview has one line per medication, in the order of
    the medications: the non-empty ones of these fields in this order joined
    with a comma and a space, [Medicine] standing for a name that is missing,
    and then a note that holds something, after a dash; the count is the
    number of lines.  A preview is produced for no other list.  The example
    gives the preview [Ibuprofen, 200mg, 2x/day] and the count 1. *)
Theorem prescription_preview_lines :
  (∀ payload,
     Forall joinable (PrescriptionInput.medications payload) →
     prescription_preview payload
     = Ok (<["preview" := VStr (join nl (line_of <$> PrescriptionInput.medications payload))]>
           (<["count" := VInt (Z.of_nat (length (PrescriptionInput.medications payload)))]> ∅)))
  ∧ (∀ payload r, prescription_preview payload = Ok r →
       Forall joinable (PrescriptionInput.medications payload))
  ∧ prescription_preview
      {| PrescriptionInput.medications :=
           [<["name" := VStr (u "Ibuprofen")]> (<["dose" := VStr (u "200mg")]>
            (<["frequency" := VStr (u "2x/day")]> ∅))];
         PrescriptionInput.notes := None |}
    = Ok (<["preview" := VStr (u "Ibuprofen, 200mg, 2x/day")]>
          (<["count" := VInt 1]> ∅)).
Proof.
  split; [|split].
  - intros payload Hj. unfold prescription_preview.
    rewrite (preview_lines_joinable _ Hj). by rewrite length_fmap.
  - intros payload r. unfold prescription_preview.
    destruct (preview_lines _) as [lines|] eqn:Hl; [|done]. intros _.
    by eapply preview_lines_Ok.
  - vm_compute. reflexivity.
Qed.

End PreviewProperties.

(** * The handlers on examples *)

(** C3, as the specification has it, fails: the search string is a pattern,
    and the dot of a search finds Bob, whose name has no dot. *)
Lemma list_patients_dot :
  list_patients (H := example_platform) example_db None (Some (u "."))
  = Some [serialize (H := example_platform) alice; serialize (H := example_platform) bob]
  ∧ bob !! "full_name" = Some (VStr (u "Bob"))
  ∧ ¬ contains_ci (H := example_platform) (u ".") (u "Bob").
Proof.
  split; [vm_compute; reflexivity|]. split; [reflexivity|].
  rewrite <- regex_search_plain. by vm_compute.
Qed.

Lemma list_patients_search_witness :
  ∃ ds, list_patients (H := example_platform) example_db (Some (u "t1")) (Some (u "bo"))
        = Some (serialize (H := example_platform) <$> ds)
        ∧ bob ∈ ds.
Proof.
  destruct (list_patients_search (H := example_platform) example_db (Some (u "t1")) (u "bo"))
    as (ds & ds0 & H1 & _ & H3 & _ & H5).
  - intros c Hc. reflexivity.
  - vm_compute. repeat constructor.
  - exists ds. split; [exact H1|].
    apply (H5 bob (u "Bob") eq_refl).
    + vm_compute. repeat constructor.
    + vm_compute. repeat constructor.
    + split.
      * apply H3. split.
        -- unfold example_db. rewrite lookup_total_insert_eq. by left.
        -- intros t [= <-] _. reflexivity.
      * exists [], (u "Bo"), (u "b"). split; reflexivity.
Defined.

(** C4, as the specification has it, fails: a dose given as a number cannot
    be joined, and the request ends in a [TypeError]. *)
Lemma prescription_preview_number :
  prescription_preview (H := example_platform)
    {| PrescriptionInput.medications :=
         [<["name" := VStr (u "Ibuprofen")]> (<["dose" := VInt 200]> ∅)];
       PrescriptionInput.notes := None |}
  = Raise TypeError.
Proof. vm_compute. reflexivity. Qed.

Lemma prescription_preview_lines_witness :
  prescription_preview (H := example_platform)
    {| PrescriptionInput.medications := [ibuprofen]; PrescriptionInput.notes := None |}
  = Ok (<["preview" := VStr (join nl (line_of (H := example_platform) <$> [ibuprofen]))]>
        (<["count" := VInt 1]> ∅)).
Proof.
  apply (proj1 (prescription_preview_lines (H := example_platform))
           {| PrescriptionInput.medications := [ibuprofen];
              PrescriptionInput.notes := None |}).
  simpl. constructor; [|constructor].
  intros k v Hk Hv Ht. unfold line_fields in Hk.
  repeat (apply elem_of_cons in Hk as [->|Hk];
          [vm_compute in Hv; simplify_eq; eauto|]).
  by apply elem_of_nil in Hk.
Defined.

Lemma appointment_status_witness :
  ∃ a, Appointment.validate appointment_body = Ok a
       ∧ Appointment.status a = u "scheduled".
Proof.
  eexists. split; [reflexivity|].
  eapply (proj1 (appointment_status appointment_body _ eq_refl)). reflexivity.
Defined.


(** With whitespace among the digits an identifier of 24 characters is
    taken for one of fewer bytes, which no document carries. *)
Lemma get_patient_spaced_identifier :
  get_patient (H := example_platform) example_db (u "65 f0 a1 b2 c3 d4 e5 f6 ")
  = Raise (HTTPException 404 "Patient not found").
Proof. vm_compute. reflexivity. Qed.


Lemma update_doctor_empty_witness :
  update_doctor (H := example_platform) example_db who_id DoctorUpdate.empty
  = (Ok (Some {[ "updated" := VBool false ]}), example_db).
Proof.
  apply (update_doctor_empty (H := example_platform) example_db who_id DoctorUpdate.empty).
  reflexivity.
Defined.

Lemma update_doctor_frame_witness :
  ∃ d', fst (update_doctor (H := example_platform) example_db who_id
               (only_full_name (u "X")))
        = Ok (Some (serialize (H := example_platform) d'))
        ∧ d' !! "full_name" = Some (VStr (u "X"))
        ∧ ∀ k, k ≠ "full_name" → d' !! k = dr_who !! k.
Proof.
  destruct (update_doctor_frame (H := example_platform) example_db who_id
              (only_full_name (u "X")) who_id dr_who)
    as (pre & post & d' & _ & Hu & _ & _ & _ & _ & _ & _ & _ & Hx).
  - reflexivity.
  - vm_compute. reflexivity.
  - rewrite model_dump_empty_iff. discriminate.
  - exists d'. split; [by rewrite Hu|]. exact (Hx (u "X") eq_refl).
Defined.

(** * Further properties of the handlers *)

Section Responses.
Context `{Platform}.

Lemma serialize_nonempty (doc : document) :
  doc ≠ ∅ →
  serialize doc
  = iso_value <$> match doc !! "_id" with
                  | Some v => <["id" := VStr (py_str v)]> (delete "_id" doc)
                  | None => doc
                  end.
Proof. intros Hd. unfold serialize. by rewrite decide_False. Qed.

Lemma serialize_no_id (doc : document) (k : string) :
  doc !! "_id" = None → serialize doc !! k = iso_value <$> doc !! k.
Proof.
  intros Hid. destruct (decide (doc = ∅)) as [->|Hd].
  - unfold serialize. rewrite decide_True by done. by rewrite lookup_empty.
  - rewrite (serialize_nonempty _ Hd), Hid. by rewrite lookup_fmap.
Qed.

Lemma serialize_with_id (doc : document) (v : value) :
  doc !! "_id" = Some v →
  serialize doc !! "_id" = None
  ∧ serialize doc !! "id" = Some (VStr (py_str v))
  ∧ ∀ k, k ≠ "_id" → k ≠ "id" → serialize doc !! k = iso_value <$> doc !! k.
Proof.
  intros Hid.
  assert (Hd : doc ≠ ∅) by (intros ->; by rewrite lookup_empty in Hid).
  rewrite (serialize_nonempty _ Hd), Hid. repeat split.
  - by rewrite lookup_fmap, lookup_insert_ne, lookup_delete_eq.
  - by rewrite lookup_fmap, lookup_insert_eq.
  - intros k Hk1 Hk2. by rewrite lookup_fmap, lookup_insert_ne, lookup_delete_ne.
Qed.

(** X1: [serialize] renames the identifier and touches nothing else: a
    document with an [_id] comes out without that key, with [id] holding the
    text of the identifier (over an [id] the document may have had), and with
    every other key as it was, a [datetime] as its text; a document without
    [_id] keeps all its keys, again with each [datetime] as its text. *)
Theorem serialize_lookup (doc : document) :
  (doc !! "_id" = None → ∀ k, serialize doc !! k = iso_value <$> doc !! k)
  ∧ (∀ v, doc !! "_id" = Some v →
       serialize doc !! "_id" = None
       ∧ serialize doc !! "id" = Some (VStr (py_str v))
       ∧ ∀ k, k ≠ "_id" → k ≠ "id" → serialize doc !! k = iso_value <$> doc !! k).
Proof.
  split.
  - intros Hid k. by apply serialize_no_id.
  - intros v Hid. by apply serialize_with_id.
Qed.

Lemma serialize_lookup_id (doc : document) : serialize doc !! "_id" = None.
Proof.
  destruct (doc !! "_id") as [v|] eqn:Hid.
  - by apply (serialize_with_id doc v).
  - by rewrite serialize_no_id, Hid.
Qed.

Lemma serialize_lookup_value (doc : document) (k : string) (w : value) :
  serialize doc !! k = Some w → iso_value w = w.
Proof.
  destruct (doc !! "_id") as [v|] eqn:Hid.
  - destruct (serialize_with_id doc v Hid) as (H1 & H2 & H3).
    destruct (decide (k = "_id")) as [->|Hk1]; [by rewrite H1|].
    destruct (decide (k = "id")) as [->|Hk2]; [rewrite H2; by intros [= <-]|].
    rewrite (H3 k Hk1 Hk2). destruct (doc !! k) as [[]|]; simpl; by intros [= <-].
  - rewrite (serialize_no_id doc k Hid).
    destruct (doc !! k) as [[]|]; simpl; by intros [= <-].
Qed.

(** X2: a serialized document never has the key [_id] and never holds a
    [datetime], and serializing it again changes nothing. *)
Theorem serialize_idempotent (doc : document) :
  serialize doc !! "_id" = None
  ∧ (∀ k iso, serialize doc !! k ≠ Some (VDatetime iso))
  ∧ serialize (serialize doc) = serialize doc.
Proof.
  split; [apply serialize_lookup_id|]. split.
  - intros k iso Hk. by apply serialize_lookup_value in Hk.
  - apply map_eq. intros k.
    rewrite (serialize_no_id _ k (serialize_lookup_id doc)).
    destruct (serialize doc !! k) as [w|] eqn:Hk; [|done]. simpl.
    by rewrite (serialize_lookup_value doc k w Hk).
Qed.

Lemma find_one_exists (coll : list document) (q : gmap string cond) (d : document) :
  d ∈ coll → doc_matches d q = true →
  ∃ d0, find_one coll q = Some d0 ∧ d0 ∈ coll ∧ doc_matches d0 q = true.
Proof.
  unfold find_one. induction coll as [|x coll IH]; intros Hin Hd.
  - by apply elem_of_nil in Hin.
  - rewrite filter_cons. destruct (doc_matches x q) eqn:Hx; simpl.
    + exists x. split; [done|]. split; [by left|done].
    + apply elem_of_cons in Hin as [->|Hin]; [congruence|].
      destruct (IH Hin Hd) as (d0 & H1 & H2 & H3). exists d0.
      split; [done|]. split; [by right|done].
Qed.

(** X3: when the identifier is well formed and a document of the
    collection carries it, [get_patient] and [get_appointment] answer with a
    document of the collection that carries it, serialized: its [id] is the
    text of the identifier and it has no [_id]. *)
Theorem get_by_id_found (db : database) (id_str : str) (o : list N) :
  ObjectId id_str = Some o →
  ((∃ d, d ∈ db !!! "patient" ∧ d !! "_id" = Some (VObjectId o)) →
     ∃ d0, get_patient db id_str = Ok (serialize d0)
           ∧ d0 ∈ db !!! "patient" ∧ d0 !! "_id" = Some (VObjectId o)
           ∧ serialize d0 !! "id" = Some (VStr (py_str (VObjectId o)))
           ∧ serialize d0 !! "_id" = None)
  ∧ ((∃ d, d ∈ db !!! "appointment" ∧ d !! "_id" = Some (VObjectId o)) →
     ∃ d0, get_appointment db id_str = Ok (serialize d0)
           ∧ d0 ∈ db !!! "appointment" ∧ d0 !! "_id" = Some (VObjectId o)
           ∧ serialize d0 !! "id" = Some (VStr (py_str (VObjectId o)))
           ∧ serialize d0 !! "_id" = None).
Proof.
  intros Hval.
  assert (Hfound : ∀ coll : list document,
            (∃ d, d ∈ coll ∧ d !! "_id" = Some (VObjectId o)) →
            ∃ d0, find_one coll (by_id o) = Some d0 ∧ d0 ∈ coll
                  ∧ d0 !! "_id" = Some (VObjectId o) ∧ d0 ≠ ∅).
  { intros coll (d & Hin & Hid). apply doc_matches_by_id in Hid.
    destruct (find_one_exists _ _ _ Hin Hid) as (d0 & Hf & Hin0 & Hm).
    apply doc_matches_by_id in Hm. exists d0.
    split; [done|]. split; [done|]. split; [done|].
    intros ->. by rewrite lookup_empty in Hm. }
  split; intros Hex; destruct (Hfound _ Hex) as (d0 & Hf & Hin0 & Hid0 & Hne);
    exists d0; unfold get_patient, get_appointment, oid; rewrite Hval, Hf;
    rewrite decide_False by done;
    destruct (serialize_with_id d0 _ Hid0) as (H1 & H2 & _); done.
Qed.

End Responses.

(** ** The dashboard *)

Section DashboardProperties.
Context `{Platform}.

Lemma q_appt_status (doctor_id tenant_id : option str) :
  q_appt doctor_id tenant_id !! "status" = None.
Proof.
  unfold q_appt, set_if.
  destruct (truthy_opt tenant_id), (truthy_opt doctor_id);
    by rewrite ?lookup_insert_ne, ?lookup_empty by done.
Qed.

Lemma cond_holds_string (o : option value) (s : str) :
  (∀ l, o ≠ Some (VList l)) →
  cond_holds o (CEq (VStr s)) = bool_decide (o = Some (VStr s)).
Proof.
  intros Hl. simpl. destruct o as [w|].
  - destruct w as [| | |s'| l | |]; try (by rewrite bool_decide_false by congruence).
    + rewrite orb_false_r. apply bool_decide_ext. split; congruence.
    + by destruct (Hl l).
  - by rewrite bool_decide_false.
Qed.

Lemma count_documents_status (coll : list document) (q : gmap string cond) :
  q !! "status" = None →
  (∀ d l, d ∈ coll → d !! "status" ≠ Some (VList l)) →
  count_documents coll q
  = (count_documents coll (with_status_filter q "scheduled")
     + count_documents coll (with_status_filter q "completed")
     + count_documents coll (with_status_filter q "cancelled")
     + length (filter (λ d, doc_matches d q ∧ ¬ counted_status d) coll))%nat.
Proof.
  intros Hq. unfold count_documents, with_status_filter.
  induction coll as [|d coll IH]; intros Hl; [done|].
  assert (Hd : ∀ l, d !! "status" ≠ Some (VList l)) by (intros l; apply Hl; by left).
  assert (IH' := IH (λ d' l Hin, Hl d' l (list_elem_of_further _ _ _ Hin))).
  clear IH. rewrite !filter_cons, !(doc_matches_insert _ _ _ _ Hq).
  rewrite !(cond_holds_string _ _ Hd).
  destruct (decide (doc_matches d q ∧ ¬ counted_status d)) as [[Hm Hn]|Hno].
  - apply Is_true_true in Hm. rewrite Hm.
    rewrite !bool_decide_false by (intros Hs; apply Hn; unfold counted_status; tauto).
    simpl. lia.
  - destruct (doc_matches d q) eqn:Hm.
    + destruct (decide (counted_status d)) as [Hc|Hc]; [|by destruct Hno].
      destruct Hc as [Hs|[Hs|Hs]]; rewrite Hs;
        repeat case_bool_decide; try discriminate; try done; simpl; lia.
    + rewrite !andb_false_r. simpl. lia.
Qed.

(** X4: when no appointment holds a list as its status, the total of
    [get_metrics] is the sum of the three counters and of the appointments
    under the same filter whose status is none of [scheduled], [completed],
    [cancelled]; so the three counters never add up to more than the total,
    and an appointment with another status, [no_show] say, is in the total
    only. *)
Theorem get_metrics_partition (db : database) (doctor_id tenant_id : option str) :
  (∀ d l, d ∈ db !!! "appointment" → d !! "status" ≠ Some (VList l)) →
  ∃ total scheduled completed cancelled,
    get_metrics db doctor_id tenant_id
    = [ {| Card.label := "Total Appointments"; Card.value := total |};
        {| Card.label := "Scheduled"; Card.value := scheduled |};
        {| Card.label := "Completed"; Card.value := completed |};
        {| Card.label := "Cancelled"; Card.value := cancelled |} ]
    ∧ total
      = (scheduled + completed + cancelled
         + length (filter (λ d, doc_matches d (q_appt doctor_id tenant_id)
                                ∧ ¬ counted_status d)
                     (db !!! "appointment")))%nat
    ∧ (scheduled + completed + cancelled ≤ total)%nat.
Proof.
  intros Hl. eexists _, _, _, _. split; [reflexivity|].
  pose proof (count_documents_status (db !!! "appointment") _
                (q_appt_status doctor_id tenant_id) Hl) as Hc.
  split; [exact Hc|]. rewrite Hc. lia.
Qed.

End DashboardProperties.

(** ** More on [generate_emr] *)

Lemma lstrip_head (s r : str) (c : N) : lstrip s = c :: r → isspace c = false.
Proof.
  induction s as [|a s IH]; [done|]. simpl.
  destruct (isspace a) eqn:Ha; [done|]. by intros [= <- _].
Qed.

Lemma lstrip_suffix (s : str) : lstrip s `suffix_of` s.
Proof.
  induction s as [|a s IH]; [done|]. simpl.
  destruct (isspace a); [by apply suffix_cons_r|done].
Qed.

Lemma lstrip_app_spaces (ws s : str) :
  Forall (λ c, isspace c = true) ws → lstrip (ws ++ s) = lstrip s.
Proof. induction 1 as [|c ws Hc _ IH]; [done|]. simpl. by rewrite Hc. Qed.

Lemma rstrip_app_spaces (s ws : str) :
  Forall (λ c, isspace c = true) ws → rstrip (s ++ ws) = rstrip s.
Proof.
  intros Hws. unfold rstrip. rewrite reverse_app.
  by rewrite lstrip_app_spaces by (by apply Forall_reverse).
Qed.

Lemma rstrip_snoc (s : str) (c : N) : isspace c = false → rstrip (s ++ [c]) = s ++ [c].
Proof.
  intros Hc. unfold rstrip. rewrite reverse_snoc. simpl. rewrite Hc.
  by rewrite reverse_cons, reverse_involutive.
Qed.

Lemma rstrip_last (s r : str) (c : N) : rstrip s = r ++ [c] → isspace c = false.
Proof.
  unfold rstrip. intros Hs. apply (f_equal reverse) in Hs.
  rewrite reverse_involutive, reverse_snoc in Hs. by apply lstrip_head in Hs.
Qed.

Lemma strip_app_spaces (ws1 s ws2 : str) :
  Forall (λ c, isspace c = true) ws1 → Forall (λ c, isspace c = true) ws2 →
  strip (ws1 ++ s ++ ws2) = strip s.
Proof.
  intros H1 H2. unfold strip. rewrite (lstrip_app_spaces _ _ H1).
  induction s as [|a s IH]; simpl.
  - by rewrite (lstrip_spaces _ H2).
  - destruct (isspace a); [done|].
    exact (rstrip_app_spaces (a :: s) ws2 H2).
Qed.

Lemma strip_idemp (s : str) : strip (strip s) = strip s.
Proof.
  destruct (strip s) as [|a r] eqn:Hs using rev_ind; [done|].
  pose proof Hs as Hl. apply rstrip_last in Hl.
  assert (Hh : lstrip (r ++ [a]) = r ++ [a]).
  { unfold strip in Hs. destruct (lstrip s) as [|b t] eqn:Ht.
    - by destruct r.
    - apply lstrip_head in Ht.
      assert (Hr : ∃ t', rstrip (b :: t) = b :: t').
      { unfold rstrip. destruct (reverse (b :: t)) as [|z w] eqn:Hz using rev_ind.
        - apply (f_equal reverse) in Hz. by rewrite reverse_involutive in Hz.
        - clear IHw. rewrite reverse_cons in Hz. apply app_inj_tail in Hz as [_ <-].
          assert (Hw : ∃ w', lstrip (w ++ [b]) = w' ++ [b]).
          { clear -Ht. induction w as [|y w IH]; simpl.
            - rewrite Ht. by exists [].
            - destruct (isspace y); [done|]. by exists (y :: w). }
          destruct Hw as [w' ->]. rewrite reverse_snoc. eauto. }
      destruct Hr as [t' Hr]. rewrite Hr in Hs. rewrite <- Hs. simpl. by rewrite Ht. }
  unfold strip. rewrite Hh. by apply rstrip_snoc.
Qed.

Lemma py_or_cases (a b : option str) (v : str) :
  py_or a b = Some v → a = Some v ∨ b = Some v.
Proof. unfold py_or. destruct (truthy_opt a); auto. Qed.

Lemma emr_fields_value (text : str) (k : string) (v : str) :
  emr_fields text !! k = Some (Some v) →
  (k = "summary" ∧ v = take 500 text)
  ∨ (k ≠ "summary" ∧ ∃ label, find text label = Some v).
Proof.
  unfold emr_fields. intros Hk.
  rewrite lookup_insert in Hk. case_decide.
  { right. split; [by subst|]. injection Hk as Hk.
    apply py_or_cases in Hk as [?|?]; eauto. }
  do 5 (rewrite lookup_insert in Hk; case_decide;
        [right; split; [by subst|]; injection Hk as Hk; eauto|]).
  rewrite lookup_insert in Hk. case_decide; [|by rewrite lookup_empty in Hk].
  left. split; [done|]. by injection Hk as <-.
Qed.

Lemma section_value_suffix (label : string) (text v : str) :
  strip text = text → section_value label text v → v ≠ [] → v `suffix_of` text.
Proof.
  intros Ht (rest & (pre & (l & c & Hx & _) & _) & ->) Hv.
  assert (Hrest : lstrip rest `suffix_of` text).
  { rewrite Hx. apply suffix_app_r, suffix_app_r, suffix_cons_r, lstrip_suffix. }
  unfold strip in *. destruct (lstrip rest) as [|z r _] eqn:Hl using rev_ind; [done|].
  destruct Hrest as [k Hk].
  assert (Hz : isspace z = false).
  { apply (rstrip_last (lstrip text) (k ++ r)). rewrite Ht, Hk. by rewrite app_assoc. }
  rewrite (rstrip_snoc _ _ Hz). by exists k.
Qed.

(** X5: every section of a result holds something, and what it holds is an
    end of the trimmed transcript: the text from some place on, to the last
    character.  (So of two sections one is always the end of the other.) *)
Theorem generate_emr_suffixes (conv : ConversationInput) (emr : gmap string str) :
  generate_emr conv = Ok emr →
  ∀ k v, emr !! k = Some v →
    v ≠ [] ∧ (k ≠ "summary" → v `suffix_of` strip (transcript conv)).
Proof.
  intros Hg k v Hk.
  assert (Hne : strip (transcript conv) ≠ []).
  { unfold generate_emr in Hg. by destruct (strip (transcript conv)). }
  rewrite (generate_emr_ok conv Hne) in Hg. injection Hg as <-.
  apply clean_lookup in Hk as [Hv Hk]. split; [done|]. intros Hs.
  apply emr_fields_value in Hk as [[? _]|[_ [label Hf]]]; [done|].
  apply find_Some in Hf. apply (section_value_suffix label); [apply strip_idemp|done..].
Qed.

(** X6: the summary of a result is the beginning of the trimmed
    transcript, at most 500 characters of it, and all of it when it has no
    more than 500. *)
Theorem generate_emr_summary_bound (conv : ConversationInput) (emr : gmap string str) :
  generate_emr conv = Ok emr →
  ∃ v, emr !! "summary" = Some v
       ∧ v `prefix_of` strip (transcript conv)
       ∧ (length v ≤ 500)%nat
       ∧ ((length (strip (transcript conv)) ≤ 500)%nat → v = strip (transcript conv)).
Proof.
  intros Hg.
  assert (Hne : strip (transcript conv) ≠ []).
  { unfold generate_emr in Hg. by destruct (strip (transcript conv)). }
  rewrite (generate_emr_ok conv Hne) in Hg. injection Hg as <-.
  exists (take 500 (strip (transcript conv))). split; [|split; [|split]].
  - apply clean_lookup. split.
    + destruct (strip (transcript conv)); done.
    + unfold emr_fields. by rewrite !lookup_insert_ne, lookup_insert_eq by done.
  - apply prefix_take.
  - rewrite length_take. lia.
  - intros Hlen. by apply take_ge.
Qed.

(** X7: whitespace before and after a transcript changes nothing: the
    padded transcript gives the result, or the refusal, of the transcript
    itself, whatever the style. *)
Theorem generate_emr_padding (ws1 ws2 t : str) (s1 s2 : option str) :
  Forall (λ c, isspace c = true) ws1 → Forall (λ c, isspace c = true) ws2 →
  generate_emr {| transcript := ws1 ++ t ++ ws2; style := s1 |}
  = generate_emr {| transcript := t; style := s2 |}.
Proof.
  intros H1 H2. unfold generate_emr. simpl. by rewrite (strip_app_spaces _ _ _ H1 H2).
Qed.

(** ** More on [update_doctor] *)

Section UpdateProperties.
Context `{Platform}.

Lemma find_one_None_inv (coll : list document) (q : gmap string cond) :
  find_one coll q = None → ∀ d, d ∈ coll → doc_matches d q = false.
Proof.
  unfold find_one. induction coll as [|x coll IH]; intros Hf d Hd.
  - by apply elem_of_nil in Hd.
  - rewrite filter_cons in Hf. destruct (doc_matches x q) eqn:Hx; simpl in Hf; [done|].
    apply elem_of_cons in Hd as [->|Hd]; [done|]. by apply IH.
Qed.

Lemma model_dump_no_id (p : DoctorUpdate.t) :
  DoctorUpdate.model_dump_exclude_none p !! "_id" = None
  ∧ DoctorUpdate.model_dump_exclude_none p !! "id" = None.
Proof.
  split; apply model_dump_other; unfold update_keys; intros Hin;
    apply list_elem_of_In in Hin; simpl in Hin; intuition discriminate.
Qed.

Lemma model_dump_values (p : DoctorUpdate.t) (k : string) (v : value) :
  DoctorUpdate.model_dump_exclude_none p !! k = Some v → iso_value v = v.
Proof.
  intros Hk. destruct (decide (k ∈ update_keys)) as [Hin|Hin].
  - destruct (model_dump_fields p) as (H1 & H2 & H3 & H4 & H5 & H6).
    unfold update_keys in Hin.
    repeat (apply elem_of_cons in Hin as [->|Hin];
            [first [rewrite H1 in Hk|rewrite H2 in Hk|rewrite H3 in Hk
                   |rewrite H4 in Hk|rewrite H5 in Hk|rewrite H6 in Hk];
             apply fmap_Some in Hk as (x & _ & ->); done|]).
    by apply elem_of_nil in Hin.
  - by rewrite (model_dump_other p k Hin) in Hk.
Qed.

(** What [update_doctor] does when the doctor is there. *)
Lemma update_doctor_found (db : database) (doctor_id : str) (p : DoctorUpdate.t)
    (o : list N) (d : document) :
  ObjectId doctor_id = Some o →
  find_one (db !!! "doctor") (by_id o) = Some d →
  DoctorUpdate.model_dump_exclude_none p ≠ ∅ →
  ∃ pre post,
    db !!! "doctor" = pre ++ d :: post
    ∧ Forall (λ x, doc_matches x (by_id o) = false) pre
    ∧ doc_matches (DoctorUpdate.model_dump_exclude_none p ∪ d) (by_id o) = true
    ∧ update_doctor db doctor_id p
      = (Ok (Some (serialize (DoctorUpdate.model_dump_exclude_none p ∪ d))),
         <["doctor" := pre ++ (DoctorUpdate.model_dump_exclude_none p ∪ d) :: post]> db).
Proof.
  intros Hval Hfind Hp.
  destruct (find_one_Some _ _ _ Hfind) as (pre & post & Hcoll & Hpre & Hd).
  set (updates := DoctorUpdate.model_dump_exclude_none p) in *.
  assert (Hd' : doc_matches (updates ∪ d) (by_id o) = true).
  { apply doc_matches_by_id. rewrite lookup_union_r by apply model_dump_no_id.
    by apply doc_matches_by_id. }
  exists pre, post. split; [done|]. split; [done|]. split; [done|].
  unfold update_doctor, oid. fold updates. rewrite decide_False by done.
  rewrite Hval, Hcoll, (update_one_middle _ _ _ _ _ Hpre Hd). simpl.
  rewrite lookup_total_insert_eq. by rewrite (find_one_middle _ _ _ _ Hpre Hd').
Qed.

(** The outcomes of [update_doctor]: the store is the one it had, or the
    doctor was found. *)
Lemma update_doctor_cases (db : database) (doctor_id : str) (p : DoctorUpdate.t) :
  snd (update_doctor db doctor_id p) = db
  ∨ ∃ o d, ObjectId doctor_id = Some o
           ∧ find_one (db !!! "doctor") (by_id o) = Some d
           ∧ DoctorUpdate.model_dump_exclude_none p ≠ ∅.
Proof.
  destruct (decide (DoctorUpdate.model_dump_exclude_none p = ∅)) as [Hp|Hp].
  { left. unfold update_doctor. by rewrite decide_True. }
  destruct (ObjectId doctor_id) as [o|] eqn:Hval.
  - destruct (find_one (db !!! "doctor") (by_id o)) as [d|] eqn:Hf.
    + right. by exists o, d.
    + left. unfold update_doctor, oid. rewrite decide_False by done. rewrite Hval.
      by rewrite (update_one_None _ _ _ (find_one_None_inv _ _ Hf)).
  - left. unfold update_doctor, oid. rewrite decide_False by done. by rewrite Hval.
Qed.

Lemma union_union_same (m d : document) : m ∪ (m ∪ d) = m ∪ d.
Proof.
  apply map_eq. intros k. rewrite !lookup_union.
  by destruct (m !! k), (d !! k).
Qed.

(** X8: [update_doctor] is idempotent: the same request on the store it
    leaves gives the same answer and leaves that store, whatever the answer
    was. *)
Theorem update_doctor_idempotent (db db' : database) (doctor_id : str)
    (p : DoctorUpdate.t) (r : result (option document)) :
  update_doctor db doctor_id p = (r, db') →
  update_doctor db' doctor_id p = (r, db').
Proof.
  intros Hu. destruct (update_doctor_cases db doctor_id p) as [Hs|(o & d & Hval & Hf & Hp)].
  - rewrite Hu in Hs. simpl in Hs. by subst db'.
  - destruct (update_doctor_found db doctor_id p o d Hval Hf Hp)
      as (pre & post & Hcoll & Hpre & Hd' & Hu').
    rewrite Hu in Hu'. injection Hu' as -> ->.
    set (d' := DoctorUpdate.model_dump_exclude_none p ∪ d) in *.
    set (db' := <["doctor" := pre ++ d' :: post]> db).
    assert (Hf' : find_one (db' !!! "doctor") (by_id o) = Some d').
    { unfold db'. rewrite lookup_total_insert_eq. by apply find_one_middle. }
    destruct (update_doctor_found db' doctor_id p o d' Hval Hf' Hp)
      as (pre2 & post2 & Hcoll2 & Hpre2 & _ & Hu2).
    assert (Hsame : DoctorUpdate.model_dump_exclude_none p ∪ d' = d')
      by apply union_union_same.
    rewrite Hsame in Hu2. rewrite Hu2.
    assert (pre2 = pre ∧ post2 = post) as [-> ->].
    { unfold db' in Hcoll2. rewrite lookup_total_insert_eq in Hcoll2.
      assert (length pre2 = length pre) as Hlen.
      { destruct (Nat.lt_trichotomy (length pre2) (length pre)) as [Hlt|[?|Hlt]]; [|done|].
        - exfalso. apply (f_equal (λ l, l !! length pre2)) in Hcoll2.
          rewrite lookup_app_l in Hcoll2 by done.
          rewrite (list_lookup_middle pre2 post2 d' _ eq_refl) in Hcoll2.
          rewrite Forall_lookup in Hpre. specialize (Hpre _ _ Hcoll2). simpl in Hpre.
          congruence.
        - exfalso. apply (f_equal (λ l, l !! length pre)) in Hcoll2.
          rewrite (list_lookup_middle pre post d' _ eq_refl) in Hcoll2.
          rewrite lookup_app_l in Hcoll2 by done. symmetry in Hcoll2.
          rewrite Forall_lookup in Hpre2. specialize (Hpre2 _ _ Hcoll2). simpl in Hpre2.
          congruence. }
      apply app_inj_1 in Hcoll2 as [Hpe Hrest]; [|done].
      injection Hrest as Hpo. split; congruence. }
    unfold db'. by rewrite insert_insert_eq.
Qed.

(** X9: whatever it answers, [update_doctor] changes no collection but
    that of the doctors, adds and removes no doctor, and leaves under every
    key a [DoctorUpdate] does not carry ([_id], [email], [tenant_id], ...)
    the value each doctor had. *)
Theorem update_doctor_preserves (db : database) (doctor_id : str) (p : DoctorUpdate.t) :
  let db' := snd (update_doctor db doctor_id p) in
  (∀ c, c ≠ "doctor" → db' !!! c = db !!! c)
  ∧ length (db' !!! "doctor") = length (db !!! "doctor")
  ∧ ∀ k, k ∉ update_keys →
      (λ d : document, d !! k) <$> (db' !!! "doctor")
      = (λ d : document, d !! k) <$> (db !!! "doctor").
Proof.
  simpl. destruct (update_doctor_cases db doctor_id p) as [->|(o & d & Hval & Hf & Hp)];
    [done|].
  destruct (update_doctor_found db doctor_id p o d Hval Hf Hp)
    as (pre & post & Hcoll & _ & _ & ->).
  simpl. split; [|split].
  - intros c Hc. by rewrite lookup_total_insert_ne.
  - rewrite lookup_total_insert_eq, Hcoll. by rewrite !length_app.
  - intros k Hk. rewrite lookup_total_insert_eq, Hcoll, !fmap_app, !fmap_cons.
    by rewrite (lookup_union_r _ _ _ (model_dump_other p k Hk)).
Qed.

(** X10: [update_doctor] answers [{"updated": False}] exactly when the body
    provides no field. *)
Theorem update_doctor_reports_no_update (db : database) (doctor_id : str)
    (p : DoctorUpdate.t) :
  fst (update_doctor db doctor_id p) = Ok (Some {[ "updated" := VBool false ]})
  ↔ p = DoctorUpdate.empty.
Proof.
  split.
  - intros Hr. apply model_dump_empty_iff.
    destruct (decide (DoctorUpdate.model_dump_exclude_none p = ∅)) as [|Hp]; [done|].
    exfalso. unfold update_doctor, oid in Hr. rewrite decide_False in Hr by done.
    destruct (ObjectId doctor_id) as [o|]; [|done].
    destruct (update_one _ _ _) as [coll n]. destruct (n =? 0)%nat; [done|].
    simpl in Hr. destruct (find_one _ _) as [d'|] eqn:Hf; [|done].
    apply find_one_Some in Hf as (_ & _ & _ & _ & Hm). apply doc_matches_by_id in Hm.
    destruct (serialize_with_id d' _ Hm) as (_ & Hid & _).
    simpl in Hr. injection Hr as Hr. rewrite Hr in Hid.
    by rewrite lookup_singleton_ne in Hid.
  - intros ->. unfold update_doctor. by rewrite decide_True.
Qed.

(** X11: when an update that provides a field succeeds, the answer carries
    the identifier as [id], no [_id], and every field provided with the value
    provided. *)
Theorem update_doctor_echo (db db' : database) (doctor_id : str) (p : DoctorUpdate.t)
    (resp : option document) :
  DoctorUpdate.model_dump_exclude_none p ≠ ∅ →
  update_doctor db doctor_id p = (Ok resp, db') →
  ∃ o r, ObjectId doctor_id = Some o ∧ resp = Some r
         ∧ r !! "id" = Some (VStr (py_str (VObjectId o)))
         ∧ r !! "_id" = None
         ∧ ∀ k v, DoctorUpdate.model_dump_exclude_none p !! k = Some v → r !! k = Some v.
Proof.
  intros Hp Hu. destruct (ObjectId doctor_id) as [o|] eqn:Hval.
  - destruct (find_one (db !!! "doctor") (by_id o)) as [d|] eqn:Hf.
    + destruct (update_doctor_found db doctor_id p o d Hval Hf Hp)
        as (pre & post & _ & _ & Hd' & Hu').
      rewrite Hu in Hu'. injection Hu' as -> _. apply doc_matches_by_id in Hd'.
      destruct (serialize_with_id _ _ Hd') as (H1 & H2 & H3).
      exists o, (serialize (DoctorUpdate.model_dump_exclude_none p ∪ d)).
      split; [done|]. split; [done|]. split; [done|]. split; [done|].
      intros k v Hk.
      assert (k ≠ "_id" ∧ k ≠ "id") as [Hk1 Hk2].
      { destruct (model_dump_no_id p). split; intros ->; congruence. }
      rewrite (H3 k Hk1 Hk2), (lookup_union_l' _ _ _ (mk_is_Some _ _ Hk)), Hk. simpl.
      by rewrite (model_dump_values p k v Hk).
    + exfalso. unfold update_doctor, oid in Hu. rewrite decide_False in Hu by done.
      rewrite Hval in Hu.
      by rewrite (update_one_None _ _ _ (find_one_None_inv _ _ Hf)) in Hu.
  - exfalso. unfold update_doctor, oid in Hu. rewrite decide_False in Hu by done.
    by rewrite Hval in Hu.
Qed.

End UpdateProperties.

(** ** More on [Appointment] *)

Lemma required_str_is_Some (body : gmap string value) (k : string) :
  is_Some (Appointment.required_str body k) ↔ is_string (body !! k).
Proof.
  unfold Appointment.required_str, is_string.
  destruct (body !! k) as [[]|]; split; intros [x Hx]; try done; eauto.
Qed.

Lemma optional_str_is_Some (body : gmap string value) (k : string) :
  is_Some (Appointment.optional_str body k) ↔ is_optional_string (body !! k).
Proof.
  unfold Appointment.optional_str, is_optional_string, is_string.
  destruct (body !! k) as [[]|]; split; try (intros [x Hx]; done); eauto;
    intros [?|[?|[? ?]]]; done.
Qed.

Lemma default_str_is_Some (body : gmap string value) (k : string) (d : str) :
  is_Some (Appointment.default_str body k d) ↔ body !! k = None ∨ is_string (body !! k).
Proof.
  unfold Appointment.default_str, is_string.
  destruct (body !! k) as [[]|]; split; try (intros [x Hx]; done); eauto;
    intros [?|[? ?]]; done.
Qed.

(** X12: a body is accepted as an [Appointment] exactly when [doctor_id],
    [patient_id] and [start_time] are strings, [status] is a string or
    missing, and each of [facility_id], [end_time], [reason], [notes],
    [tenant_id] is a string, [null] or missing; a body that is refused is
    refused with a validation error. *)
Theorem appointment_accepted (body : gmap string value) :
  ((∃ a, Appointment.validate body = Ok a)
   ↔ is_string (body !! "doctor_id") ∧ is_string (body !! "patient_id")
     ∧ is_string (body !! "start_time")
     ∧ (body !! "status" = None ∨ is_string (body !! "status"))
     ∧ is_optional_string (body !! "facility_id")
     ∧ is_optional_string (body !! "end_time")
     ∧ is_optional_string (body !! "reason")
     ∧ is_optional_string (body !! "notes")
     ∧ is_optional_string (body !! "tenant_id"))
  ∧ ∀ e, Appointment.validate body = Raise e → e = ValidationError.
Proof.
  rewrite <- (default_str_is_Some body "status" (u "scheduled")).
  rewrite <- !required_str_is_Some, <- !optional_str_is_Some.
  unfold Appointment.validate.
  destruct (Appointment.required_str body "doctor_id") as [x1|]; simpl;
    [|split; [split; [by intros [? ?]|by intros [[? ?] _]]|by intros e [= <-]]].
  destruct (Appointment.required_str body "patient_id") as [x2|]; simpl;
    [|split; [split; [by intros [? ?]|by intros (_ & [? ?] & _)]|by intros e [= <-]]].
  destruct (Appointment.optional_str body "facility_id") as [x3|]; simpl;
    [|split; [split; [by intros [? ?]|by intros (_&_&_&_& [? ?] & _)]|by intros e [= <-]]].
  destruct (Appointment.required_str body "start_time") as [x4|]; simpl;
    [|split; [split; [by intros [? ?]|by intros (_&_& [? ?] & _)]|by intros e [= <-]]].
  destruct (Appointment.optional_str body "end_time") as [x5|]; simpl;
    [|split; [split; [by intros [? ?]|by intros (_&_&_&_&_& [? ?] & _)]|by intros e [= <-]]].
  destruct (Appointment.default_str body "status" (u "scheduled")) as [x6|]; simpl;
    [|split; [split; [by intros [? ?]|by intros (_&_&_& [? ?] & _)]|by intros e [= <-]]].
  destruct (Appointment.optional_str body "reason") as [x7|]; simpl;
    [|split; [split; [by intros [? ?]|by intros (_&_&_&_&_&_& [? ?] & _)]|by intros e [= <-]]].
  destruct (Appointment.optional_str body "notes") as [x8|]; simpl;
    [|split; [split; [by intros [? ?]|by intros (_&_&_&_&_&_&_& [? ?] & _)]|by intros e [= <-]]].
  destruct (Appointment.optional_str body "tenant_id") as [x9|]; simpl;
    [|split; [split; [by intros [? ?]|by intros (_&_&_&_&_&_&_&_& [? ?])]|by intros e [= <-]]].
  split; [|done]. split; [intros _; by repeat split|]. intros _. eauto.
Qed.

(** X13: a key the model does not declare is ignored: putting it in a body,
    or taking it out, does not change what the validation gives. *)
Theorem appointment_ignores_other_keys (body : gmap string value) (k : string) (v : value) :
  k ∉ appointment_keys →
  Appointment.validate (<[k := v]> body) = Appointment.validate body
  ∧ Appointment.validate (delete k body) = Appointment.validate body.
Proof.
  unfold appointment_keys. intros Hk.
  assert (Hne : ∀ k', k' ∈ appointment_keys → k ≠ k').
  { intros k' Hin ->. by apply Hk. }
  assert (Hin : ∀ k', In k' appointment_keys → k' ∈ appointment_keys)
    by (intros k'; apply list_elem_of_In).
  unfold Appointment.validate, Appointment.required_str, Appointment.optional_str,
    Appointment.default_str.
  split.
  - by rewrite !lookup_insert_ne by (apply Hne, Hin; simpl; tauto).
  - by rewrite !lookup_delete_ne by (apply Hne, Hin; simpl; tauto).
Qed.

(** ** More on listing *)

Section ListingProperties.
Context `{Platform}.

Lemma filter_sublist_impl {A} (P Q : A → Prop) `{!∀ x, Decision (P x)}
    `{!∀ x, Decision (Q x)} (l : list A) :
  (∀ x, P x → Q x) → filter P l `sublist_of` filter Q l.
Proof.
  intros HPQ. induction l as [|x l IH]; [done|]. rewrite !filter_cons.
  destruct (decide (P x)) as [HP|HP].
  - rewrite decide_True by auto. by apply sublist_skip.
  - destruct (decide (Q x)); [by apply sublist_cons|done].
Qed.

(** X14: a search only narrows the listing of patients: what is listed
    with a search is listed without it, in the same order. *)
Theorem list_patients_narrows (db : database) (tenant_id search : option str)
    (l : list document) :
  list_patients db tenant_id search = Some l →
  ∃ l0, list_patients db tenant_id None = Some l0 ∧ l `sublist_of` l0.
Proof.
  unfold list_patients, list_patients_query. intros Hl.
  eexists. split; [reflexivity|].
  destruct (truthy_opt search); [|by injection Hl as <-].
  destruct (regex_test (default [] search) (u "i")) as [test|]; [|done].
  injection Hl as <-. apply fmap_sublist. unfold get_documents.
  apply filter_sublist_impl. intros d Hd. apply Is_true_true in Hd. apply Is_true_true.
  rewrite doc_matches_insert in Hd by (by apply set_if_tenant_lookup).
  by apply andb_true_iff in Hd as [_ ?].
Qed.

Lemma doc_matches_set_if (d : document) (q : gmap string cond) (k : string)
    (param : option str) :
  q !! k = None → doc_matches d (set_if k param q) = true →
  doc_matches d q = true
  ∧ ∀ x, param = Some x → x ≠ [] → cond_holds (d !! k) (CEq (VStr x)) = true.
Proof.
  intros Hq. unfold set_if. destruct param as [[|c x]|]; simpl.
  - intros Hd. split; [done|]. by intros x' [= <-].
  - rewrite (doc_matches_insert _ _ _ _ Hq). intros [Hc Hd]%andb_true_iff.
    split; [done|]. by intros x' [= <-] _.
  - intros Hd. split; [done|]. by intros x' [=].
Qed.

Lemma elem_of_get_documents_limit (db : database) (c : string) (q : gmap string cond)
    (limit : option nat) (d : document) :
  d ∈ get_documents db c q limit → d ∈ db !!! c ∧ doc_matches d q = true.
Proof.
  unfold get_documents. intros Hd.
  assert (Hin : d ∈ filter (λ d, doc_matches d q) (reverse (db !!! c))).
  { destruct limit as [n|]; [by apply (subseteq_take n)|done]. }
  apply list_elem_of_filter in Hin as [Hm Hin]. rewrite elem_of_reverse in Hin.
  split; [done|]. by apply Is_true_true.
Qed.

(** X15: every document [list_appointments] lists is an appointment of the
    store, serialized, that meets each condition asked for: the [doctor_id],
    the [tenant_id] and the [status], where they are not empty; and every
    document [list_emrs_for_patient] lists is a record of the store,
    serialized, with the [patient_id] asked for. *)
Theorem listings_meet_conditions (db : database) :
  (∀ doctor_id tenant_id status r,
     r ∈ list_appointments db doctor_id tenant_id status →
     ∃ d, d ∈ db !!! "appointment" ∧ r = serialize d
          ∧ (∀ x, doctor_id = Some x → x ≠ [] →
               cond_holds (d !! "doctor_id") (CEq (VStr x)) = true)
          ∧ (∀ x, tenant_id = Some x → x ≠ [] →
               cond_holds (d !! "tenant_id") (CEq (VStr x)) = true)
          ∧ (∀ x, status = Some x → x ≠ [] →
               cond_holds (d !! "status") (CEq (VStr x)) = true))
  ∧ (∀ patient_id r,
       r ∈ list_emrs_for_patient db patient_id →
       ∃ d, d ∈ db !!! "emr" ∧ r = serialize d
            ∧ cond_holds (d !! "patient_id") (CEq (VStr patient_id)) = true).
Proof.
  split.
  - intros doctor_id tenant_id status r Hr. unfold list_appointments in Hr.
    apply list_elem_of_fmap in Hr as (d & -> & Hd).
    apply elem_of_get_documents_limit in Hd as [Hin Hm].
    unfold list_appointments_query in Hm.
    apply doc_matches_set_if in Hm as [Hm Hs].
    2:{ unfold set_if. destruct (truthy_opt tenant_id), (truthy_opt doctor_id);
          by rewrite ?lookup_insert_ne, ?lookup_empty by done. }
    apply doc_matches_set_if in Hm as [Hm Ht].
    2:{ unfold set_if. destruct (truthy_opt doctor_id);
          by rewrite ?lookup_insert_ne, ?lookup_empty by done. }
    apply doc_matches_set_if in Hm as [_ Hdoc]; [|done].
    exists d. by repeat (split; [done|]).
  - intros patient_id r Hr. unfold list_emrs_for_patient in Hr.
    apply list_elem_of_fmap in Hr as (d & -> & Hd).
    apply elem_of_get_documents_limit in Hd as [Hin Hm].
    exists d. split; [done|]. split; [done|].
    unfold doc_matches in Hm. apply bool_decide_eq_true in Hm.
    by apply map_Forall_singleton in Hm.
Qed.

End ListingProperties.

(** ** More on [prescription_preview] *)

Section PreviewComposition.
Context `{Platform}.

Lemma preview_lines_app (ms1 ms2 : list (gmap string value)) (l1 l2 : list str) :
  preview_lines ms1 = Ok l1 → preview_lines ms2 = Ok l2 →
  preview_lines (ms1 ++ ms2) = Ok (l1 ++ l2).
Proof.
  revert l1. induction ms1 as [|m ms1 IH]; intros l1 H1 H2; simpl in *.
  - by injection H1 as <-.
  - destruct (medication_line m) as [line|]; [|done].
    destruct (preview_lines ms1) as [ls|]; [|done]. injection H1 as <-.
    by rewrite (IH ls eq_refl H2).
Qed.

Lemma preview_lines_app_Raise (ms1 ms2 : list (gmap string value)) (e : exn) :
  preview_lines ms1 = Raise e
  ∨ ((∃ l1, preview_lines ms1 = Ok l1) ∧ preview_lines ms2 = Raise e) →
  preview_lines (ms1 ++ ms2) = Raise e.
Proof.
  induction ms1 as [|m ms1 IH]; simpl.
  - intros [?|[_ ?]]; done.
  - destruct (medication_line m) as [line|e']; [|by intros [?|[[? ?] _]]].
    destruct (preview_lines ms1) as [ls|e'].
    + intros [?|[_ H2]]; [done|]. by rewrite IH by (right; eauto).
    + intros [[= ->]|[[? ?] _]]; [|done]. by rewrite IH by (by left).
Qed.

Lemma preview_lines_length (ms : list (gmap string value)) (l : list str) :
  preview_lines ms = Ok l → length l = length ms.
Proof.
  revert l. induction ms as [|m ms IH]; intros l; simpl.
  - by intros [= <-].
  - destruct (medication_line m) as [line|]; [|done].
    destruct (preview_lines ms) as [ls|]; [|done]. intros [= <-]. simpl.
    by rewrite (IH ls eq_refl).
Qed.

Lemma join_app (sep : str) (l1 l2 : list str) :
  l1 ≠ [] → l2 ≠ [] → join sep (l1 ++ l2) = join sep l1 ++ sep ++ join sep l2.
Proof.
  intros H1 H2. induction l1 as [|a l1 IH]; [done|].
  destruct l1 as [|b l1].
  - simpl. by destruct l2.
  - change (join sep ((a :: b :: l1) ++ l2)) with (a ++ sep ++ join sep ((b :: l1) ++ l2)).
    rewrite IH by done. change (join sep (a :: b :: l1)) with (a ++ sep ++ join sep (b :: l1)).
    by rewrite <- !app_assoc.
Qed.

(** X16: the preview of two lists of medications put one after the other
    is made of their previews: when both have a preview and neither list is
    empty, the text is the first text, a newline, the second text, and the
    count is the sum of the counts; when one of them ends in an error, so
    does the whole. *)
Theorem prescription_preview_app (ms1 ms2 : list (gmap string value))
    (n1 n2 n : option str) :
  (∀ r1 r2,
     prescription_preview {| PrescriptionInput.medications := ms1;
                             PrescriptionInput.notes := n1 |} = Ok r1 →
     prescription_preview {| PrescriptionInput.medications := ms2;
                             PrescriptionInput.notes := n2 |} = Ok r2 →
     ms1 ≠ [] → ms2 ≠ [] →
     ∃ p1 p2 c1 c2,
       r1 = preview_response p1 c1 ∧ r2 = preview_response p2 c2
       ∧ prescription_preview {| PrescriptionInput.medications := ms1 ++ ms2;
                                 PrescriptionInput.notes := n |}
         = Ok (preview_response (p1 ++ nl ++ p2) (c1 + c2)))
  ∧ (∀ e r1,
       prescription_preview {| PrescriptionInput.medications := ms1;
                               PrescriptionInput.notes := n1 |} = Raise e
       ∨ (prescription_preview {| PrescriptionInput.medications := ms1;
                                  PrescriptionInput.notes := n1 |} = Ok r1
          ∧ prescription_preview {| PrescriptionInput.medications := ms2;
                                    PrescriptionInput.notes := n2 |} = Raise e) →
       prescription_preview {| PrescriptionInput.medications := ms1 ++ ms2;
                               PrescriptionInput.notes := n |} = Raise e).
Proof.
  unfold prescription_preview. simpl. split.
  - intros r1 r2 H1 H2 Hm1 Hm2.
    destruct (preview_lines ms1) as [l1|] eqn:Hl1; [|done].
    destruct (preview_lines ms2) as [l2|] eqn:Hl2; [|done].
    injection H1 as <-. injection H2 as <-.
    exists (join nl l1), (join nl l2), (Z.of_nat (length l1)), (Z.of_nat (length l2)).
    split; [done|]. split; [done|].
    rewrite (preview_lines_app _ _ _ _ Hl1 Hl2). unfold preview_response.
    rewrite length_app, Nat2Z.inj_add.
    rewrite join_app; [done| |].
    + intros ->. apply preview_lines_length in Hl1. by destruct ms1.
    + intros ->. apply preview_lines_length in Hl2. by destruct ms2.
  - intros e r1 Hr.
    rewrite (preview_lines_app_Raise ms1 ms2 e); [done|].
    destruct (preview_lines ms1) as [l1|e1].
    + right. split; [eauto|]. destruct Hr as [?|[_ Hr]]; [done|].
      destruct (preview_lines ms2) as [l2|e2]; [discriminate Hr|].
      by injection Hr as ->.
    + left. destruct Hr as [[= ->]|[? _]]; done.
Qed.

End PreviewComposition.

(** ** The further properties on examples *)

Lemma serialize_lookup_witness :
  serialize (H := example_platform) bob !! "id" = Some (VStr bob_id)
  ∧ serialize (H := example_platform) bob !! "_id" = None.
Proof.
  destruct (proj2 (serialize_lookup (H := example_platform) bob) (VObjectId bob_id))
    as (H1 & H2 & _).
  - reflexivity.
  - split; [exact H2|exact H1].
Defined.

Lemma get_by_id_found_witness :
  ∃ d0, get_patient (H := example_platform) example_db bob_id
        = Ok (serialize (H := example_platform) d0)
        ∧ d0 ∈ example_db !!! "patient".
Proof.
  destruct (proj1 (get_by_id_found (H := example_platform) example_db bob_id bob_id eq_refl))
    as (d0 & H1 & H2 & _).
  - exists bob. split; [|reflexivity].
    unfold example_db. rewrite lookup_total_insert_eq. by left.
  - exists d0. split; [exact H1|exact H2].
Defined.

Lemma get_metrics_partition_witness :
  ∃ total scheduled completed cancelled,
    get_metrics (H := example_platform) clinic_db (Some who_id) None
    = [ {| Card.label := "Total Appointments"; Card.value := total |};
        {| Card.label := "Scheduled"; Card.value := scheduled |};
        {| Card.label := "Completed"; Card.value := completed |};
        {| Card.label := "Cancelled"; Card.value := cancelled |} ]
    ∧ (scheduled + completed + cancelled ≤ total)%nat.
Proof.
  destruct (get_metrics_partition (H := example_platform) clinic_db (Some who_id) None)
    as (t & s & c & x & H1 & _ & H3).
  - intros d l Hd. unfold clinic_db in Hd. rewrite lookup_total_insert_eq in Hd.
    repeat (apply elem_of_cons in Hd as [->|Hd]; [by vm_compute|]).
    by apply elem_of_nil in Hd.
  - exists t, s, c, x. split; [exact H1|exact H3].
Defined.

Lemma generate_emr_suffixes_witness :
  u "rest" ≠ [] ∧ (("plan" : string) ≠ "summary" → u "rest" `suffix_of` strip example_transcript).
Proof.
  apply (generate_emr_suffixes {| transcript := example_transcript; style := None |}
           _ eq_refl "plan" (u "rest")).
  vm_compute. reflexivity.
Defined.

Lemma generate_emr_summary_bound_witness :
  ∃ v, (<["chief_complaint" := u "cough" ++ nl ++ u "Plan: rest"]>
        (<["plan" := u "rest"]> (<["summary" := example_transcript]> ∅)) : gmap string str)
       !! "summary" = Some v
       ∧ (length v ≤ 500)%nat.
Proof.
  destruct (generate_emr_summary_bound
              {| transcript := example_transcript; style := None |}
              (<["chief_complaint" := u "cough" ++ nl ++ u "Plan: rest"]>
               (<["plan" := u "rest"]> (<["summary" := example_transcript]> ∅))))
    as (v & H1 & _ & H3 & _).
  - vm_compute. reflexivity.
  - exists v. split; [exact H1|exact H3].
Defined.

Lemma generate_emr_padding_witness :
  generate_emr {| transcript := u "  " ++ u "cc: cough" ++ nl; style := None |}
  = generate_emr {| transcript := u "cc: cough"; style := Some (u "concise") |}.
Proof.
  apply (generate_emr_padding (u "  ") nl (u "cc: cough") None (Some (u "concise")));
    repeat constructor.
Defined.

Lemma update_doctor_idempotent_witness :
  ∃ r db', update_doctor (H := example_platform) example_db who_id (only_full_name (u "X"))
           = (r, db')
           ∧ update_doctor (H := example_platform) db' who_id (only_full_name (u "X"))
             = (r, db').
Proof.
  destruct (update_doctor (H := example_platform) example_db who_id (only_full_name (u "X")))
    as [r db'] eqn:Hu.
  exists r, db'. split; [reflexivity|].
  exact (update_doctor_idempotent (H := example_platform) example_db db' who_id
           (only_full_name (u "X")) r Hu).
Defined.

Lemma update_doctor_echo_witness :
  ∃ r, fst (update_doctor (H := example_platform) example_db who_id (only_full_name (u "X")))
       = Ok (Some r)
       ∧ r !! "full_name" = Some (VStr (u "X")).
Proof.
  destruct (update_doctor (H := example_platform) example_db who_id (only_full_name (u "X")))
    as [[resp|e] db'] eqn:Hu.
  - destruct (update_doctor_echo (H := example_platform) example_db db' who_id
                (only_full_name (u "X")) resp) as (o & r & _ & -> & _ & _ & Hk).
    + rewrite model_dump_empty_iff. discriminate.
    + exact Hu.
    + exists r. split; [reflexivity|]. apply Hk. reflexivity.
  - exfalso. vm_compute in Hu. discriminate Hu.
Defined.

Lemma appointment_ignores_other_keys_witness :
  Appointment.validate (<["colour" := VStr (u "red")]> appointment_body)
  = Appointment.validate appointment_body.
Proof.
  apply (appointment_ignores_other_keys appointment_body "colour" (VStr (u "red"))).
  unfold appointment_keys. intros Hin. apply list_elem_of_In in Hin. simpl in Hin.
  intuition discriminate.
Defined.

Lemma list_patients_narrows_witness :
  ∃ l0, list_patients (H := example_platform) example_db None None = Some l0
        ∧ [serialize (H := example_platform) alice] `sublist_of` l0.
Proof.
  apply (list_patients_narrows (H := example_platform) example_db None (Some (u "ali"))).
  vm_compute. reflexivity.
Defined.

Lemma listings_meet_conditions_witness :
  ∃ d, d ∈ clinic_db !!! "appointment"
       ∧ serialize (H := example_platform)
           (appointment_of "65f0a1b2c3d4e5f601234571" "completed")
         = serialize (H := example_platform) d.
Proof.
  destruct (proj1 (listings_meet_conditions (H := example_platform) clinic_db)
              None None (Some (u "completed"))
              (serialize (H := example_platform)
                 (appointment_of "65f0a1b2c3d4e5f601234571" "completed")))
    as (d & H1 & H2 & _).
  - vm_compute. left.
  - exists d. split; [exact H1|exact H2].
Defined.

Lemma prescription_preview_app_witness :
  ∃ p1 p2 c1 c2,
    prescription_preview (H := example_platform)
      {| PrescriptionInput.medications := [ibuprofen] ++ [paracetamol];
         PrescriptionInput.notes := None |}
    = Ok (preview_response (p1 ++ nl ++ p2) (c1 + c2)).
Proof.
  destruct (proj1 (prescription_preview_app (H := example_platform)
                     [ibuprofen] [paracetamol] None None None) _ _ eq_refl eq_refl)
    as (p1 & p2 & c1 & c2 & _ & _ & H3); [done..|].
  exists p1, p2, c1, c2. exact H3.
Defined.
